(** * Real-time room coordination and host authorization
    (backend/socket/socketHandler.js)

    A shallow embedding of the socket handlers: the connection-time
    authentication middleware, the room joins, the sanctuary host
    authorization, the submission persistence bridge, the moderation
    router and the disconnect handler.

    Conventions of the embedding.
    - Wall-clock time is an integer number of milliseconds ([Z]); one
      handler run reads a single instant [now].
    - A JavaScript value that may be [undefined] is an [option]; the
      truthiness tests of the source ([if (token)], [a || b]) are written
      out with [truthy] and [or_else].
    - Every awaited store operation may throw; which ones do is given by
      a [Faults] table, so that the [try]/[catch] paths are part of the
      model.
    - Random material ([nanoid(32)], [Math.random()]) is an input.

    The development also covers the signalling handlers of the same
    file, the host-session hook of the client (useHostSession.ts), the
    login and flagged-post routes of the admin API (adminRoutes.js) and
    the bulk actions of the moderation panel (AdvancedModeration.tsx). *)

From stdpp Require Import base option list strings gmap pretty.
From Stdlib Require Import ZArith Lia Ascii.

Open Scope Z_scope.
Open Scope string_scope.
Open Scope list_scope.

(** ** JavaScript truthiness on optional strings *)

Definition truthy (v : option string) : bool :=
  match v with
  | Some s => negb (String.eqb s "")
  | None => false
  end.

(** [a || b] on optional strings. *)
Definition or_else (a b : option string) : option string :=
  if truthy a then a else b.

(** [a || 'literal'], whose result is always a string. *)
Definition or_lit (a : option string) (b : string) : string :=
  match or_else a (Some b) with
  | Some s => s
  | None => b
  end.

(** [!x] on a value that is a document or [undefined]. *)
Definition missing {A} (x : option A) : bool :=
  match x with
  | Some _ => false
  | None => true
  end.

(** ** Room names *)

Definition chat_room (sessionId : string) : string := "chat_" +:+ sessionId.
Definition sanctuary_room (sanctuaryId : string) : string := "sanctuary_" +:+ sanctuaryId.
Definition sanctuary_host_room (sanctuaryId : string) : string :=
  "sanctuary_host_" +:+ sanctuaryId.
Definition audio_room (sessionId : string) : string := "audio_room_" +:+ sessionId.

(** ** Durable documents *)

Module Submission.
Record t := mk {
  id : string;
  participantId : string;
  participantAlias : string;
  content : string;
  type : string;
  timestamp : Z
}.
End Submission.

Module SanctuarySession.
Record t := mk {
  id : string;
  hostId : option string;
  topic : string;
  description : string;
  emoji : string;
  createdAt : Z;
  expiresAt : Z;
  isActive : bool;
  submissions : option (list Submission.t)
}.

(** The submission sequence of a document; a document without the
    field has the empty sequence. *)
Definition submission_seq (s : t) : list Submission.t :=
  default [] (submissions s).

Definition with_submissions (subs : list Submission.t) (s : t) : t :=
  mk (id s) (hostId s) (topic s) (description s) (emoji s)
     (createdAt s) (expiresAt s) (isActive s) (Some subs).
End SanctuarySession.

Module HostSession.
Record t := mk {
  sanctuaryId : string;
  hostToken : string;
  hostId : option string;
  hostIp : string;
  userAgent : option string;
  expiresAt : Z;
  lastAccessed : Z;
  isActive : bool
}.

Definition with_lastAccessed (at_ : Z) (h : t) : t :=
  mk (sanctuaryId h) (hostToken h) (hostId h) (hostIp h) (userAgent h)
     (expiresAt h) at_ (isActive h).
End HostSession.

Module User.
Record t := mk {
  id : string;
  alias : option string;
  avatarIndex : option Z
}.
End User.

(** ** Connections *)

Module Socket.
Record t := mk {
  id : string;
  address : string;                      (* handshake.address *)
  user_agent : option string;            (* handshake.headers['user-agent'] *)
  userId : string;
  userAlias : option string;
  userAvatarIndex : option Z;
  isAnonymous : bool;
  rooms : gset string;
  currentChatSession : option string;
  currentSanctuary : option string;
  currentSanctuaryHost : option string;
  currentAudioRoom : option string;
  hostToken : option string
}.

Definition join (room : string) (s : t) : t :=
  mk (id s) (address s) (user_agent s) (userId s) (userAlias s)
     (userAvatarIndex s) (isAnonymous s) ({[room]} ∪ rooms s)
     (currentChatSession s) (currentSanctuary s) (currentSanctuaryHost s)
     (currentAudioRoom s) (hostToken s).

Definition leave (room : string) (s : t) : t :=
  mk (id s) (address s) (user_agent s) (userId s) (userAlias s)
     (userAvatarIndex s) (isAnonymous s) (rooms s ∖ {[room]})
     (currentChatSession s) (currentSanctuary s) (currentSanctuaryHost s)
     (currentAudioRoom s) (hostToken s).

Definition set_currentChatSession (v : string) (s : t) : t :=
  mk (id s) (address s) (user_agent s) (userId s) (userAlias s)
     (userAvatarIndex s) (isAnonymous s) (rooms s)
     (Some v) (currentSanctuary s) (currentSanctuaryHost s)
     (currentAudioRoom s) (hostToken s).

Definition set_currentSanctuary (v : string) (s : t) : t :=
  mk (id s) (address s) (user_agent s) (userId s) (userAlias s)
     (userAvatarIndex s) (isAnonymous s) (rooms s)
     (currentChatSession s) (Some v) (currentSanctuaryHost s)
     (currentAudioRoom s) (hostToken s).

Definition set_currentSanctuaryHost (v : string) (s : t) : t :=
  mk (id s) (address s) (user_agent s) (userId s) (userAlias s)
     (userAvatarIndex s) (isAnonymous s) (rooms s)
     (currentChatSession s) (currentSanctuary s) (Some v)
     (currentAudioRoom s) (hostToken s).

Definition set_currentAudioRoom (v : string) (s : t) : t :=
  mk (id s) (address s) (user_agent s) (userId s) (userAlias s)
     (userAvatarIndex s) (isAnonymous s) (rooms s)
     (currentChatSession s) (currentSanctuary s) (currentSanctuaryHost s)
     (Some v) (hostToken s).

Definition set_hostToken (v : string) (s : t) : t :=
  mk (id s) (address s) (user_agent s) (userId s) (userAlias s)
     (userAvatarIndex s) (isAnonymous s) (rooms s)
     (currentChatSession s) (currentSanctuary s) (currentSanctuaryHost s)
     (currentAudioRoom s) (Some v).
End Socket.

(** ** Outbound events *)

(** Where an emit goes: [socket.emit] and [targetSocket.emit] address one
    connection; [socket.to(room).emit] addresses a room except the
    sender; [io.to(room).emit] addresses the whole room. *)
Inductive Target :=
  | ToSocket (socketId : string)
  | ToRoom (room : string) (except : option string).

Inductive Event :=
  | user_joined (userId : string) (userAlias : option string)
      (userType : option string) (timestamp : Z)
  | participant_joined (id alias : string) (joinedAt : Z) (isAnonymous : bool)
  | sanctuary_host_joined (sanctuaryId : string) (submissionsCount : nat)
      (lastActivity : Z) (hostToken : string)
      (topic description emoji : string) (expiresAt : Z)
  | sanctuary_host_auth_failed (sanctuaryId error details : string)
  | sanctuary_error (error : string)
  | sanctuary_new_message (message : Submission.t)
  | sanctuary_new_submission (submission : Submission.t) (totalSubmissions : nat)
  | audio_participant_joined (id alias : string) (isHost isModerator : bool)
      (joinedAt : Z)
  | kicked_from_room (sessionId kickedBy : string) (timestamp : Z)
  | participant_kicked (participantId kickedBy : string) (timestamp : Z)
  | sanctuary_message_status (messageId status : string) (timestamp : Z)
  | user_left (userId : string) (userAlias : option string) (timestamp : Z)
  | participant_left (participantId : string) (participantAlias : option string)
      (timestamp : Z)
  | audio_participant_left (participantId : string)
      (participantAlias : option string) (timestamp : Z).

(** The awaited store operations of the handlers. *)
Inductive DbOp :=
  | UserFindOne
  | HostFindOne
  | OwnerFindOne
  | HostSave
  | HostUpdateAccess
  | SanctuaryFindOne
  | SanctuarySave.

(** What a handler run does, in program order: the events it emits and
    the writes the store has acknowledged. *)
Inductive Effect :=
  | Emit (to : Target) (ev : Event)
  | Stored (op : DbOp).

(** [Some msg] for an operation that throws [Error(msg)]. *)
Definition Faults := DbOp → option string.
Definition no_faults : Faults := λ _, None.

Record Env := mkEnv {
  now : Z;
  faults : Faults;
  nonce : string
}.

(** ** The handler monad: state, thrown errors, [try]/[catch] *)

(** What one handler run can read and change: the connection it closes
    over, the two document collections, and the effects so far. *)
Record St := mkSt {
  socket : Socket.t;
  hostSessions : list HostSession.t;
  sanctuarySessions : list SanctuarySession.t;
  out : list Effect
}.

(** A computation either returns or throws [Error(message)]; the state
    changes made before a throw stay. *)
Definition M (A : Type) : Type := St → (string + A) * St.

Definition ret {A} (a : A) : M A := λ st, (inr a, st).

Definition bind {A B} (m : M A) (k : A → M B) : M B :=
  λ st, match m st with
        | (inr a, st') => k a st'
        | (inl e, st') => (inl e, st')
        end.

Definition throw {A} (message : string) : M A := λ st, (inl message, st).

Definition try_catch {A} (body : M A) (handler : string → M A) : M A :=
  λ st, match body st with
        | (inr a, st') => (inr a, st')
        | (inl e, st') => handler e st'
        end.

Declare Scope handler_scope.
Delimit Scope handler_scope with handler.
Notation "x <- m ;; k" := (bind m (λ x, k))
  (at level 100, m at next level, right associativity) : handler_scope.
Notation "m ;;; k" := (bind m (λ _, k))
  (at level 100, right associativity) : handler_scope.
Open Scope handler_scope.

Definition get_socket : M Socket.t := λ st, (inr (socket st), st).

Definition modify_socket (f : Socket.t → Socket.t) : M unit :=
  λ st, (inr tt, mkSt (f (socket st)) (hostSessions st) (sanctuarySessions st) (out st)).

Definition log (e : Effect) : M unit :=
  λ st, (inr tt, mkSt (socket st) (hostSessions st) (sanctuarySessions st) (out st ++ [e])).

(** [socket.emit(ev)] *)
Definition emit_self (ev : Event) : M unit :=
  s <- get_socket ;; log (Emit (ToSocket (Socket.id s)) ev).

(** [socket.to(room).emit(ev)] *)
Definition emit_others (room : string) (ev : Event) : M unit :=
  s <- get_socket ;; log (Emit (ToRoom room (Some (Socket.id s))) ev).

(** [io.to(room).emit(ev)] *)
Definition emit_room (room : string) (ev : Event) : M unit :=
  log (Emit (ToRoom room None) ev).

(** An awaited store operation: throws when the fault table says so. *)
Definition await {A} (env : Env) (op : DbOp) (m : M A) : M A :=
  match faults env op with
  | Some message => throw message
  | None => m
  end.

Definition exec {A} (m : M A) (st : St) : St := snd (m st).

(** The events of a trace, without the store acknowledgements. *)
Definition emitted (tr : list Effect) : list (Target * Event) :=
  omap (λ e, match e with Emit t ev => Some (t, ev) | Stored _ => None end) tr.

(** ** Store queries *)

(** [{ hostToken, sanctuaryId, isActive: true, expiresAt: { $gt: new Date() } }] *)
Definition host_query (token sanctuaryId : string) (now : Z) (h : HostSession.t) : Prop :=
  HostSession.hostToken h = token
  ∧ HostSession.sanctuaryId h = sanctuaryId
  ∧ HostSession.isActive h = true
  ∧ now < HostSession.expiresAt h.

#[global] Instance host_query_dec token sanctuaryId now h :
  Decision (host_query token sanctuaryId now h).
Proof. unfold host_query. apply _. Defined.

(** [{ id, hostId: socket.userId, isActive: true, expiresAt: { $gt: new Date() } }] *)
Definition owner_query (sanctuaryId userId : string) (now : Z) (s : SanctuarySession.t) : Prop :=
  SanctuarySession.id s = sanctuaryId
  ∧ SanctuarySession.hostId s = Some userId
  ∧ SanctuarySession.isActive s = true
  ∧ now < SanctuarySession.expiresAt s.

#[global] Instance owner_query_dec sanctuaryId userId now s :
  Decision (owner_query sanctuaryId userId now s).
Proof. unfold owner_query. apply _. Defined.

(** [{ id, isActive: true, expiresAt: { $gt: new Date() } }] *)
Definition live_query (sanctuaryId : string) (now : Z) (s : SanctuarySession.t) : Prop :=
  SanctuarySession.id s = sanctuaryId
  ∧ SanctuarySession.isActive s = true
  ∧ now < SanctuarySession.expiresAt s.

#[global] Instance live_query_dec sanctuaryId now s :
  Decision (live_query sanctuaryId now s).
Proof. unfold live_query. apply _. Defined.

(** A loaded document: its position in the collection and its value. *)
Abbreviation Doc A := (nat * A)%type.

Definition HostSession_findOne (env : Env) (token sanctuaryId : string)
  : M (option (Doc HostSession.t)) :=
  await env HostFindOne
    (λ st, (inr (list_find (host_query token sanctuaryId (now env)) (hostSessions st)), st)).

Definition SanctuarySession_findOne_owner (env : Env) (sanctuaryId userId : string)
  : M (option (Doc SanctuarySession.t)) :=
  await env OwnerFindOne
    (λ st, (inr (list_find (owner_query sanctuaryId userId (now env)) (sanctuarySessions st)), st)).

Definition SanctuarySession_findOne (env : Env) (sanctuaryId : string)
  : M (option (Doc SanctuarySession.t)) :=
  await env SanctuaryFindOne
    (λ st, (inr (list_find (live_query sanctuaryId (now env)) (sanctuarySessions st)), st)).

(** Modelled from the spec: the HostSession schema (models/HostSession) is
    not part of the sources. A session starts active ("absent → active
    (on mint)") and carries a last-access timestamp; [new HostSession]
    fills both. *)
Definition HostSession_new (env : Env) (sanctuaryId hostToken hostId hostIp : string)
  (userAgent : option string) (expiresAt : Z) : HostSession.t :=
  HostSession.mk sanctuaryId hostToken (Some hostId) hostIp userAgent expiresAt
    (now env) true.

(** [await hostSession.save()] of a new document: it is appended to the
    collection. A write that the store turns down (a validation rule or
    an index of the schema, which is not part of the sources) is a
    [HostSave] fault. *)
Definition HostSession_save (env : Env) (h : HostSession.t) : M (Doc HostSession.t) :=
  await env HostSave
    (λ st, (inr (length (hostSessions st), h),
            mkSt (socket st) (hostSessions st ++ [h]) (sanctuarySessions st)
                 (out st ++ [Stored HostSave]))).

(** Modelled from the spec: [updateAccess] is a method of the missing
    HostSession model; it "bumps the last-access timestamp" of the
    document and writes it back. *)
Definition HostSession_updateAccess (env : Env) (d : Doc HostSession.t)
  : M (Doc HostSession.t) :=
  let d' := HostSession.with_lastAccessed (now env) d.2 in
  await env HostUpdateAccess
    (λ st, (inr (d.1, d'),
            mkSt (socket st) (<[d.1 := d']> (hostSessions st)) (sanctuarySessions st)
                 (out st ++ [Stored HostUpdateAccess]))).

(** [await sanctuarySession.save()] of a loaded document. *)
Definition SanctuarySession_save (env : Env) (d : Doc SanctuarySession.t) : M unit :=
  await env SanctuarySave
    (λ st, (inr tt,
            mkSt (socket st) (hostSessions st) (<[d.1 := d.2]> (sanctuarySessions st))
                 (out st ++ [Stored SanctuarySave]))).

(** ** Connection-time authentication ([io.use]) *)

(** The decoded token payload as the middleware reads it:
    [decoded.user] and [decoded.user.id], either of which may be absent. *)
Record JwtPayload := mkJwtPayload {
  user : option (option string)
}.

Record Handshake := mkHandshake {
  hs_socketId : string;
  hs_token : option string;               (* handshake.auth.token *)
  hs_address : string;
  hs_userAgent : option string
}.

(** [User.findOne({ id })]: the first user document with that id. *)
Definition User_findOne (users : list User.t) (id : option string) : option User.t :=
  match id with
  | Some i => snd <$> list_find (λ u, User.id u = i) users
  | None => None
  end.

(** A connection as socket.io hands it to the connection callback: it
    is a member of the room named by its own id and of no other. *)
Definition connected (h : Handshake) (userId : string) (userAlias : option string)
  (userAvatarIndex : option Z) (isAnonymous : bool) : Socket.t :=
  Socket.mk (hs_socketId h) (hs_address h) (hs_userAgent h) userId userAlias
    userAvatarIndex isAnonymous {[hs_socketId h]} None None None None None.

Definition anonymous_id (socketId : string) : string := "anonymous_" +:+ socketId.

Section Authenticate.
(** [jwt.verify(token, secret)]: the payload, or [None] when it throws. *)
Variable jwt_verify : string → option JwtPayload.
Variable users : list User.t.
Variable faults : Faults.

(** [inl] is [next(new Error(message))], [inr] is [next()] with the
    identity attached to the connection. *)
Definition authenticate (h : Handshake) : string + Socket.t :=
  if negb (truthy (hs_token h)) then
    inr (connected h (anonymous_id (hs_socketId h)) None None true)
  else
    match jwt_verify (default "" (hs_token h)) with
    | None => inl "Authentication error"
    | Some decoded =>
        match user decoded with
        | None => inl "Authentication error"            (* TypeError, caught *)
        | Some uid =>
            match faults UserFindOne with
            | Some _ => inl "Authentication error"      (* lookup threw, caught *)
            | None =>
                match User_findOne users uid with
                | None => inl "Authentication error"
                | Some u =>
                    inr (connected h (User.id u) (User.alias u)
                           (User.avatarIndex u) false)
                end
            end
        end
    end.
End Authenticate.

(** ** Room joins *)

Definition on_join_chat (env : Env) (sessionId : string) (userType : option string)
  : M unit :=
  modify_socket (Socket.join (chat_room sessionId)) ;;;
  modify_socket (Socket.set_currentChatSession sessionId) ;;;
  s <- get_socket ;;
  emit_others (chat_room sessionId)
    (user_joined (Socket.userId s) (Socket.userAlias s) userType (now env)).

Definition on_join_sanctuary (env : Env) (sanctuaryId : string)
  (alias : option string) (isAnonymous : bool) : M unit :=
  modify_socket (Socket.join (sanctuary_room sanctuaryId)) ;;;
  modify_socket (Socket.set_currentSanctuary sanctuaryId) ;;;
  s <- get_socket ;;
  emit_others (sanctuary_room sanctuaryId)
    (participant_joined (Socket.userId s)
       (or_lit (or_else alias (Socket.userAlias s)) "Anonymous")
       (now env)
       (Socket.isAnonymous s || isAnonymous)).

Definition on_join_audio_room (env : Env) (sessionId : string)
  (alias : option string) (isHost isModerator : bool) : M unit :=
  modify_socket (Socket.join (audio_room sessionId)) ;;;
  modify_socket (Socket.set_currentAudioRoom sessionId) ;;;
  s <- get_socket ;;
  emit_others (audio_room sessionId)
    (audio_participant_joined (Socket.userId s)
       (or_lit (or_else alias (Socket.userAlias s)) "Anonymous")
       isHost isModerator (now env)).

(** ** Host authorization ([join_sanctuary_host]) *)

(** [submissions?.length > 0 ? submissions[length - 1].timestamp : createdAt] *)
Definition lastActivity (s : SanctuarySession.t) : Z :=
  match last (SanctuarySession.submission_seq s) with
  | Some m => Submission.timestamp m
  | None => SanctuarySession.createdAt s
  end.

Definition host_snapshot (sanctuaryId : string) (h : HostSession.t)
  (s : SanctuarySession.t) : Event :=
  sanctuary_host_joined sanctuaryId
    (length (SanctuarySession.submission_seq s))
    (lastActivity s)
    (HostSession.hostToken h)
    (SanctuarySession.topic s) (SanctuarySession.description s)
    (SanctuarySession.emoji s) (SanctuarySession.expiresAt s).

Definition on_join_sanctuary_host (env : Env) (sanctuaryId : string)
  (hostToken : option string) : M unit :=
  try_catch
    ((* First, try to find active host session by token *)
     hostSession <-
       (if truthy hostToken
        then HostSession_findOne env (default "" hostToken) sanctuaryId
        else ret None) ;;
     s <- get_socket ;;
     (* If no host session found and user is authenticated, check by user ID *)
     found <-
       (if missing hostSession && negb (Socket.isAnonymous s)
        then
          sanctuarySession <-
            SanctuarySession_findOne_owner env sanctuaryId (Socket.userId s) ;;
          match sanctuarySession with
          | Some ss =>
              h <- HostSession_save env
                     (HostSession_new env sanctuaryId
                        (or_lit hostToken (nonce env))
                        (Socket.userId s) (Socket.address s) (Socket.user_agent s)
                        (SanctuarySession.expiresAt ss.2)) ;;
              ret (Some h, Some ss)
          | None => ret (hostSession, None)
          end
        else ret (hostSession, None)) ;;
     match found.1 with
     | Some h =>
         h' <- HostSession_updateAccess env h ;;
         sanctuarySession <-
           match found.2 with
           | Some ss => ret (Some ss)
           | None => SanctuarySession_findOne env sanctuaryId
           end ;;
         match sanctuarySession with
         | Some ss =>
             modify_socket (Socket.join (sanctuary_host_room sanctuaryId)) ;;;
             modify_socket (Socket.set_currentSanctuaryHost sanctuaryId) ;;;
             modify_socket (Socket.set_hostToken (HostSession.hostToken h'.2)) ;;;
             emit_self (host_snapshot sanctuaryId h'.2 ss.2)
         | None => throw "Sanctuary session not found or expired"
         end
     | None => throw "Host authorization failed"
     end)
    (λ message,
       emit_self (sanctuary_host_auth_failed sanctuaryId
                    "Not authorized as host for this sanctuary" message)).

(** ** Submission persistence bridge ([sanctuary_message]) *)

Definition new_submission (env : Env) (s : Socket.t) (content : string)
  (type participantAlias : option string) : Submission.t :=
  Submission.mk
    ("sanctuary_msg_" +:+ pretty (now env) +:+ "_" +:+ nonce env)
    (Socket.userId s)
    (or_lit (or_else participantAlias (Socket.userAlias s)) "Anonymous")
    content
    (default "text" type)
    (now env).

Definition on_sanctuary_message (env : Env) (sanctuaryId content : string)
  (type participantAlias : option string) : M unit :=
  try_catch
    (sanctuarySession <- SanctuarySession_findOne env sanctuaryId ;;
     match sanctuarySession with
     | None => emit_self (sanctuary_error "Sanctuary session not found or expired")
     | Some ss =>
         s <- get_socket ;;
         let message := new_submission env s content type participantAlias in
         (* Store message in database for persistence *)
         let submissions := SanctuarySession.submission_seq ss.2 ++ [message] in
         SanctuarySession_save env
           (ss.1, SanctuarySession.with_submissions submissions ss.2) ;;;
         (* Broadcast to all participants in the sanctuary *)
         emit_room (sanctuary_room sanctuaryId) (sanctuary_new_message message) ;;;
         (* Notify host with real-time submission *)
         emit_room (sanctuary_host_room sanctuaryId)
           (sanctuary_new_submission message (length submissions))
     end)
    (λ _, emit_self (sanctuary_error "Failed to send message")).

(** ** Read receipts ([sanctuary_message_read]) *)

Definition on_sanctuary_message_read (env : Env) (sanctuaryId messageId : string)
  (hostToken : option string) : M unit :=
  emit_others (sanctuary_room sanctuaryId)
    (sanctuary_message_status messageId "read" (now env)).

(** ** Disconnect *)

(** [if (ref) { ... ref ... }] on an optional room reference. *)
Definition when_set (ref : option string) (k : string → M unit) : M unit :=
  match ref with
  | Some v => if truthy ref then k v else ret tt
  | None => ret tt
  end.

Definition on_disconnect (env : Env) : M unit :=
  s <- get_socket ;;
  (* Leave current chat session *)
  when_set (Socket.currentChatSession s) (λ c,
    emit_others (chat_room c)
      (user_left (Socket.userId s) (Socket.userAlias s) (now env))) ;;;
  (* Leave current sanctuary *)
  when_set (Socket.currentSanctuary s) (λ c,
    emit_others (sanctuary_room c)
      (participant_left (Socket.userId s) (Socket.userAlias s) (now env))) ;;;
  (* Leave current sanctuary host room: logged only *)
  when_set (Socket.currentSanctuaryHost s) (λ _, ret tt) ;;;
  (* Leave current audio room *)
  when_set (Socket.currentAudioRoom s) (λ c,
    emit_others (audio_room c)
      (audio_participant_left (Socket.userId s) (Socket.userAlias s) (now env))).

(** ** The connection registry ([io.sockets.sockets]) and the moderation router *)

(** The live connections, in insertion order. *)
Abbreviation Registry := (list Socket.t).

(** [Array.from(io.sockets.sockets.values()).find(s => s.userId === participantId)] *)
Definition find_target (io : Registry) (participantId : string) : option (Doc Socket.t) :=
  list_find (λ s, Socket.userId s = participantId) io.

Definition on_kick_participant (env : Env) (io : Registry) (actor : Socket.t)
  (sessionId participantId : string) : Registry * list Effect :=
  match find_target io participantId with
  | Some (i, targetSocket) =>
      (<[i := Socket.leave (audio_room sessionId) targetSocket]> io,
       [ Emit (ToSocket (Socket.id targetSocket))
           (kicked_from_room sessionId (Socket.userId actor) (now env));
         Emit (ToRoom (audio_room sessionId) (Some (Socket.id actor)))
           (participant_kicked participantId (Socket.userId actor) (now env)) ])
  | None => (io, [])
  end.

(** Who receives an emit: the addressed connection, or the members of
    the addressed room other than the excluded sender. *)
Definition receives (s : Socket.t) (to : Target) : Prop :=
  match to with
  | ToSocket i => Socket.id s = i
  | ToRoom room except => room ∈ Socket.rooms s ∧ except ≠ Some (Socket.id s)
  end.

#[global] Instance receives_dec s to : Decision (receives s to).
Proof. destruct to; simpl; apply _. Defined.

(** The members of a room. *)
Definition members (io : Registry) (room : string) : list Socket.t :=
  filter (λ s, room ∈ Socket.rooms s) io.

(** Transport teardown of the connection at position [i]: socket.io
    takes the connection out of every room and out of the registry, and
    the [disconnect] handler runs on the departing connection. *)
Definition teardown (env : Env) (io : Registry) (hosts : list HostSession.t)
  (sanctuaries : list SanctuarySession.t) (i : nat) : Registry * list Effect :=
  match io !! i with
  | Some s => (delete i io, out (exec (on_disconnect env) (mkSt s hosts sanctuaries [])))
  | None => (io, [])
  end.

(** ** Signalling handlers

    The remaining handlers of the connection callback read the
    connection and the registry, emit, and change nothing. *)

Module ChatMessage.
Record t := mk {
  id : string;
  sender_id : string;
  sender_alias : string;
  sender_avatarIndex : option Z;
  sender_isExpert : bool;
  content : string;
  type : string;
  attachment : option string;
  timestamp : Z;
  sessionId : string
}.
End ChatMessage.

Inductive Signal :=
  | new_message (message : ChatMessage.t)
  | user_typing (userId : string) (userAlias : option string) (isTyping : bool)
  | hand_raised (participantId participantAlias : string) (isRaised : bool)
      (timestamp : Z)
  | promoted_to_speaker (sessionId promotedBy : string) (timestamp : Z)
  | speaker_promoted (participantId promotedBy : string) (timestamp : Z)
  | force_muted (sessionId mutedBy : string) (timestamp : Z)
  | participant_muted (participantId mutedBy : string) (timestamp : Z)
  | emoji_reaction (participantId participantAlias emoji : string) (timestamp : Z)
  | emergency_alert (alertType message fromParticipant : string) (timestamp : Z)
  | voice_chat_request (fromUserId : string) (fromUserAlias : option string)
      (sessionId : string) (timestamp : Z)
  | voice_chat_response (fromUserId : string) (fromUserAlias : option string)
      (accepted : bool) (sessionId : string) (timestamp : Z)
  | message_status_update (messageId status userId : string).

(** [send_message]: the message goes to the whole chat room, sender
    included ([io.to]); it is not stored. *)
Definition on_send_message (env : Env) (socket : Socket.t) (sessionId content : string)
  (type attachment : option string) (isExpert : option bool)
  : list (Target * Signal) :=
  [ (ToRoom (chat_room sessionId) None,
     new_message
       (ChatMessage.mk ("msg_" +:+ pretty (now env) +:+ "_" +:+ nonce env)
          (Socket.userId socket)
          (or_lit (Socket.userAlias socket) "Anonymous")
          (Socket.userAvatarIndex socket)
          (default false isExpert)
          content (default "text" type) attachment (now env) sessionId)) ].

(** [typing_start] and [typing_stop] *)
Definition on_typing (socket : Socket.t) (sessionId : string) (isTyping : bool)
  : list (Target * Signal) :=
  [ (ToRoom (chat_room sessionId) (Some (Socket.id socket)),
     user_typing (Socket.userId socket) (Socket.userAlias socket) isTyping) ].

Definition on_raise_hand (env : Env) (socket : Socket.t) (sessionId : string)
  (isRaised : bool) : list (Target * Signal) :=
  [ (ToRoom (audio_room sessionId) (Some (Socket.id socket)),
     hand_raised (Socket.userId socket) (or_lit (Socket.userAlias socket) "Anonymous")
       isRaised (now env)) ].

Definition on_promote_to_speaker (env : Env) (io : Registry) (socket : Socket.t)
  (sessionId participantId : string) : list (Target * Signal) :=
  match find_target io participantId with
  | Some (_, targetSocket) =>
      [ (ToSocket (Socket.id targetSocket),
         promoted_to_speaker sessionId (Socket.userId socket) (now env));
        (ToRoom (audio_room sessionId) None,
         speaker_promoted participantId (Socket.userId socket) (now env)) ]
  | None => []
  end.

Definition on_mute_participant (env : Env) (io : Registry) (socket : Socket.t)
  (sessionId participantId : string) : list (Target * Signal) :=
  match find_target io participantId with
  | Some (_, targetSocket) =>
      [ (ToSocket (Socket.id targetSocket),
         force_muted sessionId (Socket.userId socket) (now env));
        (ToRoom (audio_room sessionId) None,
         participant_muted participantId (Socket.userId socket) (now env)) ]
  | None => []
  end.

Definition on_send_emoji_reaction (env : Env) (socket : Socket.t)
  (sessionId emoji : string) : list (Target * Signal) :=
  [ (ToRoom (audio_room sessionId) (Some (Socket.id socket)),
     emoji_reaction (Socket.userId socket)
       (or_lit (Socket.userAlias socket) "Anonymous") emoji (now env)) ].

Definition on_emergency_alert (env : Env) (socket : Socket.t)
  (sessionId alertType message : string) : list (Target * Signal) :=
  [ (ToRoom (audio_room sessionId) None,
     emergency_alert alertType message (Socket.userId socket) (now env)) ].

Definition on_request_voice_chat (env : Env) (io : Registry) (socket : Socket.t)
  (targetUserId sessionId : string) : list (Target * Signal) :=
  match find_target io targetUserId with
  | Some (_, targetSocket) =>
      [ (ToSocket (Socket.id targetSocket),
         voice_chat_request (Socket.userId socket) (Socket.userAlias socket)
           sessionId (now env)) ]
  | None => []
  end.

Definition on_voice_chat_response (env : Env) (io : Registry) (socket : Socket.t)
  (targetUserId : string) (accepted : bool) (sessionId : string)
  : list (Target * Signal) :=
  match find_target io targetUserId with
  | Some (_, targetSocket) =>
      [ (ToSocket (Socket.id targetSocket),
         voice_chat_response (Socket.userId socket) (Socket.userAlias socket)
           accepted sessionId (now env)) ]
  | None => []
  end.

(** [message_delivered] and [message_read], with status "delivered" and
    "read". *)
Definition on_message_status (socket : Socket.t) (messageId sessionId status : string)
  : list (Target * Signal) :=
  [ (ToRoom (chat_room sessionId) (Some (Socket.id socket)),
     message_status_update messageId status (Socket.userId socket)) ].

(** The connections of a registry that an emit reaches. *)
Definition recipients (io : Registry) (to : Target) : list Socket.t :=
  filter (λ s, receives s to) io.

(** * The host-session hook (src/hooks/useHostSession.ts)

    The hook keeps the host token of a sanctuary in the browser: in
    [localStorage], in [sessionStorage] and in a cookie, all under the
    key [sanctuary-host-<sanctuaryId>]. *)

(** ** Strings as the hook handles them *)

(** [s.split(sep)] for a one-character separator; the result is never
    empty. *)
Fixpoint split_on (sep : ascii) (s : string) : list string :=
  match s with
  | EmptyString => [""]
  | String c s' =>
      if Ascii.eqb c sep then "" :: split_on sep s'
      else match split_on sep s' with
           | h :: t => String c h :: t
           | [] => [String c ""]
           end
  end.

(** [while (c.charAt(0) === ' ') c = c.substring(1)] *)
Fixpoint strip_leading_spaces (c : string) : string :=
  match c with
  | String a c' => if Ascii.eqb a " "%char then strip_leading_spaces c' else c
  | EmptyString => c
  end.

(** The character occurs in the string. *)
Fixpoint has_char (a : ascii) (s : string) : bool :=
  match s with
  | EmptyString => false
  | String c s' => Ascii.eqb c a || has_char a s'
  end.

(** ** What the hook reads and writes in the browser *)

Inductive StorageOp :=
  | LocalSetItem
  | SessionSetItem
  | CookieAssign.

Module Browser.
Record t := mk {
  url_hostToken : option string;       (* URLSearchParams(location.search).get('hostToken') *)
  localStorage : gmap string string;
  sessionStorage : gmap string string;
  cookie : string;                     (* what reading document.cookie returns *)
  cookie_assignments : list string     (* what was assigned to document.cookie *)
}.
End Browser.

Definition host_key (sanctuaryId : string) : string := "sanctuary-host-" +:+ sanctuaryId.

(** [getHostToken]: the URL parameter, else [localStorage], else
    [sessionStorage]. *)
Definition getHostToken (sanctuaryId : string) (b : Browser.t) : option string :=
  let tokenFromUrl := Browser.url_hostToken b in
  let tokenFromStorage := Browser.localStorage b !! host_key sanctuaryId in
  let tokenFromSession := Browser.sessionStorage b !! host_key sanctuaryId in
  or_else (or_else tokenFromUrl tokenFromStorage) tokenFromSession.

(** [storeHostToken]: three writes in a [try]; the first write that
    throws ends the block, and the [catch] only logs. *)
Definition storeHostToken (throws : StorageOp → bool) (sanctuaryId token : string)
  (b : Browser.t) : Browser.t :=
  if throws LocalSetItem then b
  else
    let b1 := Browser.mk (Browser.url_hostToken b)
                (<[host_key sanctuaryId := token]> (Browser.localStorage b))
                (Browser.sessionStorage b) (Browser.cookie b)
                (Browser.cookie_assignments b) in
    if throws SessionSetItem then b1
    else
      let b2 := Browser.mk (Browser.url_hostToken b1) (Browser.localStorage b1)
                  (<[host_key sanctuaryId := token]> (Browser.sessionStorage b1))
                  (Browser.cookie b1) (Browser.cookie_assignments b1) in
      if throws CookieAssign then b2
      else
        Browser.mk (Browser.url_hostToken b2) (Browser.localStorage b2)
          (Browser.sessionStorage b2) (Browser.cookie b2)
          (Browser.cookie_assignments b2 ++
             [host_key sanctuaryId +:+ "=" +:+ token
                +:+ "; path=/; max-age=" +:+ pretty (24 * 60 * 60)%nat
                +:+ "; SameSite=Strict"]).

(** The loop of [getTokenFromCookie] over the pieces of the cookie
    string. *)
Fixpoint first_cookie (name : string) (ca : list string) : option string :=
  match ca with
  | [] => None
  | c :: rest =>
      let c := strip_leading_spaces c in
      if String.prefix name c
      then Some (String.substring (String.length name)
                   (String.length c - String.length name) c)
      else first_cookie name rest
  end.

Section Cookie.
(** [decodeURIComponent]: [None] when it throws [URIError]. *)
Variable decodeURIComponent : string → option string.

(** [getTokenFromCookie]: the outer [None] is the [URIError] of the
    decoding, which the function does not catch; [Some None] is [null]. *)
Definition getTokenFromCookie (sanctuaryId : string) (b : Browser.t)
  : option (option string) :=
  let name := host_key sanctuaryId +:+ "=" in
  match decodeURIComponent (Browser.cookie b) with
  | None => None
  | Some decodedCookie => Some (first_cookie name (split_on ";"%char decodedCookie))
  end.
End Cookie.

(** The session as the hook keeps it; [expiresAt] and [createdAt] are
    the instants their date strings denote. *)
Module HostView.
Record t := mk {
  sanctuaryId : string;
  hostToken : string;
  topic : string;
  description : option string;
  emoji : option string;
  expiresAt : Z;
  submissionsCount : nat;
  createdAt : Z
}.
End HostView.

(** [isExpired] *)
Definition isExpired (now : Z) (hostSession : option HostView.t) : bool :=
  match hostSession with
  | None => false
  | Some h => bool_decide (HostView.expiresAt h ≤ now)%Z
  end.

(** [getTimeRemaining] *)
Definition getTimeRemaining (now : Z) (hostSession : option HostView.t) : Z :=
  match hostSession with
  | None => 0
  | Some h => Z.max 0 (HostView.expiresAt h - now)
  end.

(** What [/api/host-recovery/verify-token] answers, as [verifyHostToken]
    reads it: a session, a refusal with or without an error text, or a
    request that throws. *)
Inductive VerifyResponse :=
  | Verified (data : HostView.t)
  | Refused (error : option string)
  | RequestFailed (message : string).

Record HookState := mkHookState {
  hostSession : option HostView.t;
  isValidating : bool;
  error : option string
}.

(** [verifyHostToken]: on success the session is kept and the token that
    was sent is stored; otherwise the error text is kept. *)
Definition verifyHostToken (throws : StorageOp → bool) (sanctuaryId : string)
  (response : VerifyResponse) (token : string) (h : HookState) (b : Browser.t)
  : option HostView.t * HookState * Browser.t :=
  match response with
  | Verified data =>
      (Some data,
       mkHookState (Some data) (isValidating h) None,
       storeHostToken throws sanctuaryId token b)
  | Refused error =>
      (None, mkHookState (hostSession h) (isValidating h)
               (Some (or_lit error "Invalid host token")), b)
  | RequestFailed message =>
      (None, mkHookState (hostSession h) (isValidating h) (Some message), b)
  end.

(** The removal of the stored tokens after a failed verification:
    [removeItem] twice and an expiring cookie assignment. *)
Definition clearHostToken (sanctuaryId : string) (b : Browser.t) : Browser.t :=
  Browser.mk (Browser.url_hostToken b)
    (delete (host_key sanctuaryId) (Browser.localStorage b))
    (delete (host_key sanctuaryId) (Browser.sessionStorage b))
    (Browser.cookie b)
    (Browser.cookie_assignments b ++
       [host_key sanctuaryId +:+ "=; expires=Thu, 01 Jan 1970 00:00:00 UTC; path=/;"]).

Section InitializeSession.
Variable decodeURIComponent : string → option string.
Variable throws : StorageOp → bool.
(** The server's answer to a verification of the given token. *)
Variable server : string → VerifyResponse.

(** [initializeSession], run by the effect when [sanctuaryId] is not
    empty; [None] is the uncaught [URIError] of the cookie fallback. *)
Definition initializeSession (sanctuaryId : string) (h : HookState) (b : Browser.t)
  : option (HookState * Browser.t) :=
  let h := mkHookState (hostSession h) true None in
  let token := getHostToken sanctuaryId b in
  match (if negb (truthy token) then getTokenFromCookie decodeURIComponent sanctuaryId b
         else Some token) with
  | None => None
  | Some token =>
      if negb (truthy token) then
        Some (mkHookState (hostSession h) false
                (Some "No host token found. You may not be the host of this sanctuary."),
              b)
      else
        let '(sessionData, h, b) :=
          verifyHostToken throws sanctuaryId (server (default "" token))
            (default "" token) h b in
        let b := if missing sessionData then clearHostToken sanctuaryId b else b in
        Some (mkHookState (hostSession h) false (error h), b)
  end.
End InitializeSession.

(** * Admin routes (backend/routes/adminRoutes.js)

    The route handlers as they run once the request has passed the
    [authMiddleware] and [adminMiddleware] guards, which are not part of
    the sources; [/login] has no guard. Every awaited operation may
    throw, which the [catch] of each route turns into a 500 response. *)

Module Admin.

Inductive Op :=
  | FindUser
  | ComparePassword
  | SaveUser
  | SignToken
  | FindPost
  | SavePost
  | DeletePost.

(** A user document with the fields the admin routes read. *)
Record Account := mkAccount {
  id : string;
  email : string;
  role : string;
  isActive : bool;
  password : string;
  alias : option string;
  avatarIndex : option Z;
  lastLoginAt : option Z
}.

Definition with_lastLoginAt (at_ : Z) (a : Account) : Account :=
  mkAccount (id a) (email a) (role a) (isActive a) (password a) (alias a)
    (avatarIndex a) (Some at_).

(** The same document as the socket middleware reads it. *)
Definition as_user (a : Account) : User.t :=
  User.mk (id a) (alias a) (avatarIndex a).

(** The payload that [/login] signs. *)
Record LoginPayload := mkLoginPayload {
  payload_id : string;
  payload_email : string;
  payload_role : string;
  payload_alias : option string
}.

Record Post := mkPost {
  post_id : string;
  flagged : bool;
  flagReason : option string
}.

Inductive Body :=
  | Failure (error : string)
  | LoggedIn (token id email : string) (alias : option string) (role : string)
      (avatarIndex : option Z)
  | Done.

Record Response := mkResponse {
  status : nat;
  body : Body
}.

(** [{ email: email.toLowerCase(), role: 'admin', isActive: true }] *)
Definition admin_query (email : string) (a : Account) : Prop :=
  Admin.email a = email ∧ role a = "admin" ∧ isActive a = true.

#[global] Instance admin_query_dec email a : Decision (admin_query email a).
Proof. unfold admin_query. apply _. Defined.

(** [{ id: req.params.id, flagged: true }] *)
Definition flagged_query (id : string) (p : Post) : Prop :=
  post_id p = id ∧ flagged p = true.

#[global] Instance flagged_query_dec id p : Decision (flagged_query id p).
Proof. unfold flagged_query. apply _. Defined.

Section Routes.
Variable toLowerCase : string → string.
(** [bcrypt.compare(password, hash)] *)
Variable bcrypt_compare : string → string → bool.
(** [jwt.sign(payload, secret, { expiresIn: '24h' })] *)
Variable jwt_sign : LoginPayload → string.
Variable throws : Op → bool.
Variable now : Z.

(** [POST /api/admin/login] *)
Definition login (email password : option string) (accounts : list Account)
  : Response * list Account :=
  if negb (truthy email) || negb (truthy password) then
    (mkResponse 400 (Failure "Email and password are required"), accounts)
  else if throws FindUser then
    (mkResponse 500 (Failure "Server error during login"), accounts)
  else
    match list_find (admin_query (toLowerCase (default "" email))) accounts with
    | None => (mkResponse 401 (Failure "Invalid credentials"), accounts)
    | Some (i, user) =>
        if throws ComparePassword then
          (mkResponse 500 (Failure "Server error during login"), accounts)
        else if negb (bcrypt_compare (default "" password) (Admin.password user)) then
          (mkResponse 401 (Failure "Invalid credentials"), accounts)
        else if throws SaveUser then
          (mkResponse 500 (Failure "Server error during login"), accounts)
        else
          let user := with_lastLoginAt now user in
          let accounts := <[i := user]> accounts in
          if throws SignToken then
            (mkResponse 500 (Failure "Server error during login"), accounts)
          else
            let token := jwt_sign (mkLoginPayload (id user) (Admin.email user)
                                     (role user) (alias user)) in
            (mkResponse 200
               (LoggedIn token (id user) (Admin.email user) (alias user) (role user)
                  (avatarIndex user)),
             accounts)
    end.

(** [Post.deleteOne({ id })]: the first post with that id goes. *)
Definition Post_deleteOne (id : string) (posts : list Post) : list Post :=
  match list_find (λ p, post_id p = id) posts with
  | Some (i, _) => delete i posts
  | None => posts
  end.

(** [POST /api/admin/flagged/:id] *)
Definition resolve_flagged (action : option string) (id : string) (posts : list Post)
  : Response * list Post :=
  if negb (truthy action)
     || negb (bool_decide (default "" action ∈ ["approve"; "remove"])) then
    (mkResponse 400 (Failure "Valid action is required (approve or remove)"), posts)
  else if throws FindPost then
    (mkResponse 500 (Failure "Server error"), posts)
  else
    match list_find (flagged_query id) posts with
    | None => (mkResponse 404 (Failure "Flagged post not found"), posts)
    | Some (i, post) =>
        if String.eqb (default "" action) "approve" then
          if throws SavePost then (mkResponse 500 (Failure "Server error"), posts)
          else (mkResponse 200 Done, <[i := mkPost (post_id post) false None]> posts)
        else
          if throws DeletePost then (mkResponse 500 (Failure "Server error"), posts)
          else (mkResponse 200 Done, Post_deleteOne id posts)
    end.
End Routes.

End Admin.

(** * Bulk moderation (src/components/sanctuary/AdvancedModeration.tsx) *)

Inductive ConnectionStatus :=
  | connected_status
  | poor_status
  | disconnected_status.

Module Participant.
Record t := mk {
  id : string;
  alias : string;
  isHost : bool;
  isModerator : bool;
  isMuted : bool;
  isBlocked : bool;
  handRaised : bool;
  connectionStatus : ConnectionStatus;
  speakingTime : nat
}.
End Participant.

(** [s.includes(sub)] *)
Fixpoint includes (s sub : string) : bool :=
  String.prefix sub s
  || match s with
     | EmptyString => false
     | String _ s' => includes s' sub
     end.

(** The callbacks a bulk action invokes, in order. *)
Inductive ModerationCall :=
  | MuteParticipant (id : string)
  | KickParticipant (id : string).

Record Toast := mkToast {
  title : string;
  toast_description : string
}.

Section Moderation.
Variable toLowerCase : string → string.
Variable participants : list Participant.t.
Variable currentUserId : string.
Variable searchTerm : string.

Definition filteredParticipants : list Participant.t :=
  filter (λ p, includes (toLowerCase (Participant.alias p)) (toLowerCase searchTerm)
               || includes (Participant.id p) searchTerm = true)
    participants.

Definition selectedParticipants : list Participant.t :=
  filter (λ p, negb (Participant.isHost p)
               && negb (String.eqb (Participant.id p) currentUserId) = true)
    filteredParticipants.

Definition is_inactive (p : Participant.t) : bool :=
  match Participant.connectionStatus p with
  | disconnected_status => true
  | _ => Nat.eqb (Participant.speakingTime p) 0
  end.

(** [handleBulkAction]: the calls made and the toast shown. *)
Definition handleBulkAction (action : string) : list ModerationCall * option Toast :=
  if String.eqb action "muteAll" then
    (MuteParticipant ∘ Participant.id
       <$> filter (λ p, Participant.isMuted p = false) selectedParticipants,
     Some (mkToast "Bulk Mute Applied"
             ("Muted "
                +:+ pretty (length (filter (λ p, Participant.isMuted p = false)
                                      selectedParticipants))
                +:+ " participants")))
  else if String.eqb action "kickInactive" then
    let inactiveParticipants := filter (λ p, is_inactive p = true) selectedParticipants in
    (KickParticipant ∘ Participant.id <$> inactiveParticipants,
     Some (mkToast "Inactive Participants Removed"
             ("Removed " +:+ pretty (length inactiveParticipants)
                +:+ " inactive participants")))
  else if String.eqb action "clearHands" then
    ([], Some (mkToast "Hands Cleared" "All raised hands have been cleared"))
  else ([], None).
End Moderation.

(** * Vocabulary of the properties *)

(** The presented credential verifies and names a stored user. *)
Definition resolves_to (jwt_verify : string → option JwtPayload) (users : list User.t)
  (h : Handshake) (u : User.t) : Prop :=
  ∃ decoded, jwt_verify (default "" (hs_token h)) = Some decoded
    ∧ ∃ uid, user decoded = Some uid ∧ User_findOne users uid = Some u.


(** The events of a trace addressed to a given room. *)
Definition to_room (room : string) (tr : list Effect) : list Event :=
  omap (λ e, match e with
             | Emit (ToRoom r _) ev => if decide (r = room) then Some ev else None
             | _ => None
             end) tr.

(** A broadcast is an emit addressed to a room. *)
Definition is_broadcast (e : Effect) : Prop :=
  match e with
  | Emit (ToRoom _ _) _ => True
  | _ => False
  end.

(** A notification that a participant left a room. *)
Definition is_left_notification (ev : Event) : Prop :=
  match ev with
  | user_left _ _ _ | participant_left _ _ _ | audio_participant_left _ _ _ => True
  | _ => False
  end.

(** How many rooms of the kinds that are notified the connection holds a
    reference to. *)
Definition notified_refs (s : Socket.t) : nat :=
  (if truthy (Socket.currentChatSession s) then 1 else 0)
  + (if truthy (Socket.currentSanctuary s) then 1 else 0)
  + (if truthy (Socket.currentAudioRoom s) then 1 else 0).

(** ** Closed forms of handler runs *)

(** The notifications a departing connection leaves behind, by kind. *)
Definition left_chat (env : Env) (s : Socket.t) : list Effect :=
  if truthy (Socket.currentChatSession s)
  then [Emit (ToRoom (chat_room (default "" (Socket.currentChatSession s)))
                (Some (Socket.id s)))
          (user_left (Socket.userId s) (Socket.userAlias s) (now env))]
  else [].

Definition left_sanctuary (env : Env) (s : Socket.t) : list Effect :=
  if truthy (Socket.currentSanctuary s)
  then [Emit (ToRoom (sanctuary_room (default "" (Socket.currentSanctuary s)))
                (Some (Socket.id s)))
          (participant_left (Socket.userId s) (Socket.userAlias s) (now env))]
  else [].

Definition left_audio (env : Env) (s : Socket.t) : list Effect :=
  if truthy (Socket.currentAudioRoom s)
  then [Emit (ToRoom (audio_room (default "" (Socket.currentAudioRoom s)))
                (Some (Socket.id s)))
          (audio_participant_left (Socket.userId s) (Socket.userAlias s) (now env))]
  else [].

(** A state with more effects at the end of its trace. *)
Definition with_out (tr : list Effect) (st : St) : St :=
  mkSt (socket st) (hostSessions st) (sanctuarySessions st) (out st ++ tr).

(** The refusal of a host join, as emitted by the [catch] block. *)
Definition auth_failed (sanctuaryId details : string) (s : Socket.t) : Effect :=
  Emit (ToSocket (Socket.id s))
    (sanctuary_host_auth_failed sanctuaryId
       "Not authorized as host for this sanctuary" details).

(** The connection after a successful host join. *)
Definition joined_as_host (sanctuaryId token : string) (s : Socket.t) : Socket.t :=
  Socket.set_hostToken token
    (Socket.set_currentSanctuaryHost sanctuaryId
       (Socket.join (sanctuary_host_room sanctuaryId) s)).

Ltac unfold_host_join :=
  unfold exec, on_join_sanctuary_host, HostSession_findOne,
    SanctuarySession_findOne_owner, SanctuarySession_findOne, HostSession_save,
    HostSession_updateAccess, emit_self;
  unfold try_catch, bind, await, get_socket, modify_socket, log, throw, ret.

(** ** Scenarios *)

(** The clock reads 1000, the store answers, and the next random token
    is "n4n0". *)
Definition env_1000 : Env := mkEnv 1000 no_faults "n4n0".

(** alice is connected as the authenticated user u1, bob anonymously. *)
Definition alice : Socket.t :=
  Socket.mk "k1" "10.0.0.1" None "u1" (Some "alice") None false {["k1"]}
    None None None None None.

Definition bob : Socket.t :=
  Socket.mk "k2" "10.0.0.2" None "anonymous_k2" None None true {["k2"]}
    None None None None None.

Definition demo_users : list User.t :=
  [User.mk "u1" (Some "alice") (Some 3); User.mk "u2" (Some "bob") None].

(** A verifier that accepts the token "good-u1" (naming user u1) and the
    token "good-u9" (naming a user that is not stored). *)
Definition demo_verify (token : string) : option JwtPayload :=
  if String.eqb token "good-u1" then Some (mkJwtPayload (Some (Some "u1")))
  else if String.eqb token "good-u9" then Some (mkJwtPayload (Some (Some "u9")))
  else None.

(** Sanctuary "s1", owned by u1 and live until time 2000: without
    submissions, and with two. *)
Definition fresh_sanctuary : SanctuarySession.t :=
  SanctuarySession.mk "s1" (Some "u1") "topic" "about" "*" 5 2000 true (Some []).

Definition busy_sanctuary : SanctuarySession.t :=
  SanctuarySession.mk "s1" (Some "u1") "topic" "about" "*" 5 2000 true
    (Some [ Submission.mk "sanctuary_msg_10_aa" "anonymous_k2" "Anonymous" "hi" "text" 10;
            Submission.mk "sanctuary_msg_20_bb" "anonymous_k2" "Anonymous" "yo" "text" 20 ]).

(** Sanctuary "sid-1" expired at time 900. *)
Definition expired_sanctuary : SanctuarySession.t :=
  SanctuarySession.mk "sid-1" (Some "u1") "topic" "about" "*" 5 900 true (Some []).

(** Two host sessions of "s1": one that expired at time 900, one that is
    live until time 2000. *)
Definition expired_host_session : HostSession.t :=
  HostSession.mk "s1" "T-old" (Some "u1") "10.0.0.1" None 900 100 true.

Definition live_host_session : HostSession.t :=
  HostSession.mk "s1" "T-live" (Some "u1") "10.0.0.1" None 2000 100 true.

(** alice after she joined the host channel of "s1" through the owner
    path. *)
Definition alice_as_host : St :=
  exec (on_join_sanctuary_host env_1000 "s1" None) (mkSt alice [] [fresh_sanctuary] []).

(** alice after she joined chat room "A" and audio room "B". *)
Definition alice_chat_audio : Socket.t :=
  socket (exec (on_join_chat env_1000 "A" None ;;;
                on_join_audio_room env_1000 "B" None false false)
            (mkSt alice [] [] [])).


(** ** Vocabulary and scenarios of the further properties *)

(** carol is authenticated and connected twice, from two tabs. *)
Definition carol : Socket.t :=
  Socket.mk "k3" "10.0.0.3" None "u3" (Some "carol") None false {["k3"]}
    None None None None None.

Definition carol_second_tab : Socket.t :=
  Socket.mk "k4" "10.0.0.3" None "u3" (Some "carol") None false {["k4"]}
    None None None None None.

(** Two connections carry the same identity and origin. *)
Definition same_identity (a b : Socket.t) : Prop :=
  Socket.id a = Socket.id b
  ∧ Socket.userId a = Socket.userId b
  ∧ Socket.userAlias a = Socket.userAlias b
  ∧ Socket.userAvatarIndex a = Socket.userAvatarIndex b
  ∧ Socket.isAnonymous a = Socket.isAnonymous b
  ∧ Socket.address a = Socket.address b
  ∧ Socket.user_agent a = Socket.user_agent b.

(** Document [S'] is document [S] with the same metadata and either the
    same submissions or the same submissions followed by [m]. *)
Definition extended_by (m : Submission.t) (S S' : SanctuarySession.t) : Prop :=
  SanctuarySession.id S' = SanctuarySession.id S
  ∧ SanctuarySession.hostId S' = SanctuarySession.hostId S
  ∧ SanctuarySession.topic S' = SanctuarySession.topic S
  ∧ SanctuarySession.description S' = SanctuarySession.description S
  ∧ SanctuarySession.emoji S' = SanctuarySession.emoji S
  ∧ SanctuarySession.createdAt S' = SanctuarySession.createdAt S
  ∧ SanctuarySession.expiresAt S' = SanctuarySession.expiresAt S
  ∧ SanctuarySession.isActive S' = SanctuarySession.isActive S
  ∧ (SanctuarySession.submission_seq S' = SanctuarySession.submission_seq S
     ∨ SanctuarySession.submission_seq S' = SanctuarySession.submission_seq S ++ [m]).

(** One cookie as the cookie string shows it. *)
Definition cookie_pair (e : string * string) : string := e.1 +:+ "=" +:+ e.2.

(** The cookie string of a jar: the pairs, separated by "; ". *)
Fixpoint render_cookies (jar : list (string * string)) : string :=
  match jar with
  | [] => ""
  | e :: rest =>
      match rest with
      | [] => cookie_pair e
      | _ :: _ => cookie_pair e +:+ "; " +:+ render_cookies rest
      end
  end.

(** The value of the first cookie of the jar with the given name. *)
Fixpoint jar_lookup (key : string) (jar : list (string * string)) : option string :=
  match jar with
  | [] => None
  | e :: rest => if String.eqb e.1 key then Some e.2 else jar_lookup key rest
  end.

(** A cookie whose name has no ';', no '=' and no leading space, and
    whose value has no ';'. *)
Definition cookie_ok (e : string * string) : Prop :=
  has_char ";" e.1 = false
  ∧ has_char "=" e.1 = false
  ∧ String.prefix " " e.1 = false
  ∧ has_char ";" e.2 = false.

(** Two accounts: an active admin, and an active user who is no admin. *)
Definition root_account : Admin.Account :=
  Admin.mkAccount "u1" "root@veilo.test" "admin" true "hash-of-secret" (Some "alice")
    (Some 3) None.

Definition plain_account : Admin.Account :=
  Admin.mkAccount "u2" "bob@veilo.test" "user" true "hash-of-hunter2" (Some "bob")
    None None.

(** A comparison that accepts "secret" against "hash-of-secret" and
    "hunter2" against "hash-of-hunter2". *)
Definition demo_compare (password hash : string) : bool :=
  String.eqb hash ("hash-of-" +:+ password).

(** A signer that writes the user id into the token, and the verifier
    that reads it back. *)
Definition demo_sign (p : Admin.LoginPayload) : string := "jwt:" +:+ Admin.payload_id p.

Definition demo_verify_signed (token : string) : option JwtPayload :=
  if String.prefix "jwt:" token
  then Some (mkJwtPayload
               (Some (Some (String.substring 4 (String.length token - 4) token))))
  else None.

Definition demo_posts : list Admin.Post :=
  [ Admin.mkPost "p1" false None;
    Admin.mkPost "p2" true (Some "spam");
    Admin.mkPost "p3" true (Some "abuse") ].

(** * Properties *)

(** ** Shared lemmas *)

Lemma truthy_Some_true (s : string) : s ≠ "" → truthy (Some s) = true.
Proof.
  intros Hs. unfold truthy. destruct (String.eqb_spec s ""); [contradiction | reflexivity].
Qed.

Lemma truthy_true_inv (v : option string) :
  truthy v = true → ∃ s, v = Some s ∧ s ≠ "".
Proof.
  destruct v as [s|]; simpl; [|discriminate].
  destruct (String.eqb_spec s ""); [discriminate|]. eauto.
Qed.

(** A query that at most one document of the collection satisfies finds
    that document. *)
Lemma list_find_unique {A} (P : A → Prop) `{∀ x, Decision (P x)} (l : list A) (x : A) :
  x ∈ l → P x → (∀ y, y ∈ l → P y → y = x) →
  ∃ i, list_find P l = Some (i, x) ∧ l !! i = Some x.
Proof.
  intros Hin HP Huniq.
  destruct (list_find P l) as [[i y]|] eqn:Hfind.
  - apply list_find_Some in Hfind as (Hi & HPy & _).
    assert (y = x) as -> by (apply Huniq; [eapply list_elem_of_lookup_2; eauto | done]).
    eauto.
  - apply list_find_None in Hfind.
    rewrite Forall_forall in Hfind. destruct (Hfind x Hin HP).
Qed.

(** A query that no document satisfies finds nothing. *)
Lemma list_find_none {A} (P : A → Prop) `{∀ x, Decision (P x)} (l : list A) :
  (∀ y, y ∈ l → ¬ P y) → list_find P l = None.
Proof. intros Hno. apply list_find_None, Forall_forall. exact Hno. Qed.

(** ** Read receipts *)

(** C10. The [sanctuary_message_read] handler does not depend on the
    [hostToken] of its payload: two requests on the same connection that
    differ only in it run identically, and every run, from any connection
    and with no host check, emits exactly one [sanctuary_message_status]
    with the message id and status [read] to the sanctuary room except
    the sender, leaving the connection and the store as they were. *)
Theorem message_read_ignores_hostToken :
  ∀ (env : Env) (sanctuaryId messageId : string) (t1 t2 : option string) (st : St),
    on_sanctuary_message_read env sanctuaryId messageId t1 st
    = on_sanctuary_message_read env sanctuaryId messageId t2 st
    ∧ on_sanctuary_message_read env sanctuaryId messageId t1 st
      = (inr tt,
         mkSt (socket st) (hostSessions st) (sanctuarySessions st)
           (out st ++
              [Emit (ToRoom (sanctuary_room sanctuaryId) (Some (Socket.id (socket st))))
                 (sanctuary_message_status messageId "read" (now env))])).
Proof. intros. split; reflexivity. Qed.

(** ** Room joins *)

Lemma join_chat_run env sessionId userType st :
  on_join_chat env sessionId userType st
  = (inr tt,
     mkSt (Socket.set_currentChatSession sessionId
             (Socket.join (chat_room sessionId) (socket st)))
       (hostSessions st) (sanctuarySessions st)
       (out st ++
          [Emit (ToRoom (chat_room sessionId) (Some (Socket.id (socket st))))
             (user_joined (Socket.userId (socket st)) (Socket.userAlias (socket st))
                userType (now env))])).
Proof. reflexivity. Qed.

Lemma join_sanctuary_run env sanctuaryId alias anon st :
  socket (exec (on_join_sanctuary env sanctuaryId alias anon) st)
  = Socket.set_currentSanctuary sanctuaryId
      (Socket.join (sanctuary_room sanctuaryId) (socket st)).
Proof. reflexivity. Qed.

Lemma join_audio_room_run env sessionId alias isHost isModerator st :
  socket (exec (on_join_audio_room env sessionId alias isHost isModerator) st)
  = Socket.set_currentAudioRoom sessionId
      (Socket.join (audio_room sessionId) (socket st)).
Proof. reflexivity. Qed.

(** C5, as stated, fails: a connection that joins chat room A and then
    chat room B is a member of both rooms at once, and a broadcast to A
    is still delivered to it. *)
Lemma join_chat_keeps_prior_room :
  let st' := exec (on_join_chat env_1000 "A" None ;;; on_join_chat env_1000 "B" None)
               (mkSt alice [] [] []) in
  Socket.currentChatSession (socket st') = Some "B"
  ∧ chat_room "A" ∈ Socket.rooms (socket st')
  ∧ chat_room "B" ∈ Socket.rooms (socket st')
  ∧ receives (socket st') (ToRoom (chat_room "A") None).
Proof.
  cbv zeta. split; [reflexivity|].
  assert (chat_room "A" ∈ Socket.rooms
            (socket (exec (on_join_chat env_1000 "A" None ;;; on_join_chat env_1000 "B" None)
                       (mkSt alice [] [] [])))) as HA.
  { change (chat_room "A" ∈ ({[chat_room "B"]} ∪ ({[chat_room "A"]} ∪ {["k1"]}) : gset string)).
    set_solver. }
  split; [exact HA|]. split.
  - change (chat_room "B" ∈ ({[chat_room "B"]} ∪ ({[chat_room "A"]} ∪ {["k1"]}) : gset string)).
    set_solver.
  - simpl. split; [exact HA | discriminate].
Qed.

(** A host join either leaves the connection as it was or joins it to
    the host channel. *)
Lemma join_host_socket env sanctuaryId hostToken st :
  socket (exec (on_join_sanctuary_host env sanctuaryId hostToken) st) = socket st
  ∨ ∃ token,
      socket (exec (on_join_sanctuary_host env sanctuaryId hostToken) st)
      = joined_as_host sanctuaryId token (socket st).
Proof.
  unfold_host_join.
  destruct (truthy hostToken);
    destruct (faults env HostFindOne), (faults env OwnerFindOne), (faults env HostSave),
      (faults env HostUpdateAccess), (faults env SanctuaryFindOne);
    cbn [missing negb andb fst snd socket hostSessions sanctuarySessions out];
    repeat (case_match; simplify_eq/=;
            cbn [missing negb andb fst snd socket hostSessions sanctuarySessions out] in *);
    eauto.
Qed.

Lemma emitted_app tr1 tr2 : emitted (tr1 ++ tr2) = emitted tr1 ++ emitted tr2.
Proof. unfold emitted. apply omap_app. Qed.

(** A host join ends in one of two ways. Refused: the one event of the
    run is [sanctuary_host_auth_failed] and the connection is as it was.
    Granted: the one event of the run is [sanctuary_host_joined] and the
    connection has joined the host channel. *)
Lemma join_host_outcome env sanctuaryId hostToken st :
  (∃ details,
     socket (exec (on_join_sanctuary_host env sanctuaryId hostToken) st) = socket st
     ∧ emitted (out (exec (on_join_sanctuary_host env sanctuaryId hostToken) st))
       = emitted (out st) ++
           [(ToSocket (Socket.id (socket st)),
             sanctuary_host_auth_failed sanctuaryId
               "Not authorized as host for this sanctuary" details)])
  ∨ (∃ token count activity topic description emoji expiresAt,
       socket (exec (on_join_sanctuary_host env sanctuaryId hostToken) st)
       = joined_as_host sanctuaryId token (socket st)
       ∧ emitted (out (exec (on_join_sanctuary_host env sanctuaryId hostToken) st))
         = emitted (out st) ++
             [(ToSocket (Socket.id (socket st)),
               sanctuary_host_joined sanctuaryId count activity token topic description
                 emoji expiresAt)]).
Proof.
  unfold_host_join.
  destruct (truthy hostToken);
    destruct (faults env HostFindOne), (faults env OwnerFindOne), (faults env HostSave),
      (faults env HostUpdateAccess), (faults env SanctuaryFindOne);
    cbn [missing negb andb fst snd socket hostSessions sanctuarySessions out];
    repeat (case_match; simplify_eq/=;
            cbn [missing negb andb fst snd socket hostSessions sanctuarySessions out] in *);
    rewrite ?emitted_app; cbn [emitted omap app mbind option_bind]; rewrite ?app_nil_r;
    first [ left; eexists; split; reflexivity
          | right; do 7 eexists; split; reflexivity ].
Qed.

(** C5, amended. Joining a chat room, a public sanctuary or an audio
    room sets the connection's current-room reference of that kind to the
    joined room, whatever it was before, and adds the room to the
    connection's memberships; no membership the connection had is
    removed and the references of the other kinds are untouched. A host
    join ends in one of two ways. Granted, its one event being
    [sanctuary_host_joined]: it does the same for the sanctuary-host
    channel. Refused, its one event being [sanctuary_host_auth_failed]:
    it leaves the connection as it was. *)
Theorem join_sets_reference_and_keeps_memberships :
  ∀ (env : Env) (st : St) (roomId : string),
    (∀ userType,
       let s' := socket (exec (on_join_chat env roomId userType) st) in
       Socket.currentChatSession s' = Some roomId
       ∧ Socket.rooms s' = {[chat_room roomId]} ∪ Socket.rooms (socket st)
       ∧ Socket.currentSanctuary s' = Socket.currentSanctuary (socket st)
       ∧ Socket.currentSanctuaryHost s' = Socket.currentSanctuaryHost (socket st)
       ∧ Socket.currentAudioRoom s' = Socket.currentAudioRoom (socket st))
    ∧ (∀ alias anon,
       let s' := socket (exec (on_join_sanctuary env roomId alias anon) st) in
       Socket.currentSanctuary s' = Some roomId
       ∧ Socket.rooms s' = {[sanctuary_room roomId]} ∪ Socket.rooms (socket st)
       ∧ Socket.currentChatSession s' = Socket.currentChatSession (socket st)
       ∧ Socket.currentSanctuaryHost s' = Socket.currentSanctuaryHost (socket st)
       ∧ Socket.currentAudioRoom s' = Socket.currentAudioRoom (socket st))
    ∧ (∀ alias isHost isModerator,
       let s' := socket (exec (on_join_audio_room env roomId alias isHost isModerator) st) in
       Socket.currentAudioRoom s' = Some roomId
       ∧ Socket.rooms s' = {[audio_room roomId]} ∪ Socket.rooms (socket st)
       ∧ Socket.currentChatSession s' = Socket.currentChatSession (socket st)
       ∧ Socket.currentSanctuary s' = Socket.currentSanctuary (socket st)
       ∧ Socket.currentSanctuaryHost s' = Socket.currentSanctuaryHost (socket st))
    ∧ (∀ hostToken,
       let st' := exec (on_join_sanctuary_host env roomId hostToken) st in
       let s' := socket st' in
       (∃ details,
          emitted (out st')
          = emitted (out st) ++
              [(ToSocket (Socket.id (socket st)),
                sanctuary_host_auth_failed roomId
                  "Not authorized as host for this sanctuary" details)]
          ∧ s' = socket st)
       ∨ (∃ token count activity topic description emoji expiresAt,
            emitted (out st')
            = emitted (out st) ++
                [(ToSocket (Socket.id (socket st)),
                  sanctuary_host_joined roomId count activity token topic description
                    emoji expiresAt)]
            ∧ Socket.currentSanctuaryHost s' = Some roomId
            ∧ Socket.rooms s' = {[sanctuary_host_room roomId]} ∪ Socket.rooms (socket st)
            ∧ Socket.currentChatSession s' = Socket.currentChatSession (socket st)
            ∧ Socket.currentSanctuary s' = Socket.currentSanctuary (socket st)
            ∧ Socket.currentAudioRoom s' = Socket.currentAudioRoom (socket st))).
Proof.
  intros env st roomId. split; [|split; [|split]]; intros.
  - subst s'. unfold exec. rewrite join_chat_run. repeat split.
  - subst s'. rewrite join_sanctuary_run. repeat split.
  - subst s'. rewrite join_audio_room_run. repeat split.
  - subst s' st'.
    destruct (join_host_outcome env roomId hostToken st)
      as [(details & -> & ->)
         | (token & count & activity & topic & description & emoji & expiresAt
            & -> & ->)].
    + left. exists details. split; reflexivity.
    + right. exists token, count, activity, topic, description, emoji, expiresAt.
      repeat split.
Qed.

(** ** Connection-time authentication *)

Section AuthenticateProperties.
Variable jwt_verify : string → option JwtPayload.
Variable users : list User.t.
Variable faults : Faults.

Lemma authenticate_anonymous h :
  truthy (hs_token h) = false →
  authenticate jwt_verify users faults h
  = inr (connected h (anonymous_id (hs_socketId h)) None None true).
Proof. intros Ht. unfold authenticate. rewrite Ht. reflexivity. Qed.

Lemma authenticate_resolved h u :
  truthy (hs_token h) = true → faults UserFindOne = None → resolves_to jwt_verify users h u →
  authenticate jwt_verify users faults h
  = inr (connected h (User.id u) (User.alias u) (User.avatarIndex u) false).
Proof.
  intros Ht Hf (decoded & Hv & uid & Hu & Hfind).
  unfold authenticate. rewrite Ht, Hv, Hu, Hf, Hfind. reflexivity.
Qed.

Lemma authenticate_rejects_iff h :
  faults UserFindOne = None →
  (∃ e, authenticate jwt_verify users faults h = inl e)
  ↔ truthy (hs_token h) = true ∧ ¬ ∃ u, resolves_to jwt_verify users h u.
Proof.
  intros Hf. split.
  - intros [e He]. destruct (truthy (hs_token h)) eqn:Ht.
    + split; [reflexivity|]. intros [u Hu].
      rewrite (authenticate_resolved h u Ht Hf Hu) in He. discriminate.
    + rewrite authenticate_anonymous in He by assumption. discriminate.
  - intros [Ht Hno]. unfold authenticate. rewrite Ht, Hf. simpl.
    destruct (jwt_verify _) as [decoded|] eqn:Hv; [|eauto].
    destruct (user decoded) as [uid|] eqn:Hu; [|eauto].
    destruct (User_findOne users uid) as [u|] eqn:Hfind; [|eauto].
    destruct Hno. exists u, decoded. eauto.
Qed.

(** A user lookup that throws rejects the connection as well: the
    [catch] of the middleware covers it. *)
Lemma authenticate_lookup_fault h decoded uid message :
  truthy (hs_token h) = true →
  jwt_verify (default "" (hs_token h)) = Some decoded →
  user decoded = Some uid →
  faults UserFindOne = Some message →
  authenticate jwt_verify users faults h = inl "Authentication error".
Proof.
  intros Ht Hv Hu Hf. unfold authenticate. rewrite Ht, Hv, Hu, Hf. reflexivity.
Qed.
End AuthenticateProperties.

Lemma anonymous_id_inj (a b : string) : anonymous_id a = anonymous_id b → a = b.
Proof. unfold anonymous_id. intros H. by simplify_eq/=. Qed.

(** C9. With a user store that answers, the connection-time
    authentication rejects a connection attempt exactly when a credential
    is presented and does not resolve (the token does not verify, or it
    names no stored user). Without a credential it never rejects: the
    connection gets the anonymous identity [anonymous_<connection id>],
    which differs between any two connections with different ids. A
    credential that resolves to a user gives the connection that user's
    id, alias and avatar index. *)
Theorem authenticate_rejects_exactly_invalid_credentials :
  ∀ (jwt_verify : string → option JwtPayload) (users : list User.t)
    (faults : Faults) (h : Handshake),
    faults UserFindOne = None →
    ((∃ e, authenticate jwt_verify users faults h = inl e)
       ↔ truthy (hs_token h) = true ∧ ¬ ∃ u, resolves_to jwt_verify users h u)
    ∧ (truthy (hs_token h) = false →
       ∃ s, authenticate jwt_verify users faults h = inr s
         ∧ Socket.userId s = anonymous_id (hs_socketId h)
         ∧ Socket.isAnonymous s = true
         ∧ ∀ h' s', hs_socketId h' ≠ hs_socketId h →
             truthy (hs_token h') = false →
             authenticate jwt_verify users faults h' = inr s' →
             Socket.userId s' ≠ Socket.userId s)
    ∧ (∀ u, truthy (hs_token h) = true → resolves_to jwt_verify users h u →
       ∃ s, authenticate jwt_verify users faults h = inr s
         ∧ Socket.userId s = User.id u
         ∧ Socket.userAlias s = User.alias u
         ∧ Socket.userAvatarIndex s = User.avatarIndex u
         ∧ Socket.isAnonymous s = false).
Proof.
  intros jwt_verify users faults h Hf. split; [|split].
  - apply authenticate_rejects_iff, Hf.
  - intros Ht. eexists. split; [apply authenticate_anonymous, Ht|].
    repeat split. intros h' s' Hne Ht' Hs'.
    rewrite authenticate_anonymous in Hs' by assumption.
    injection Hs' as <-. simpl. intros Heq. apply anonymous_id_inj in Heq. done.
  - intros u Ht Hu. eexists. split; [apply authenticate_resolved; eassumption|].
    repeat split.
Qed.

Lemma authenticate_rejects_exactly_invalid_credentials_witness :
  (∃ s, authenticate demo_verify demo_users no_faults
          (mkHandshake "k7" (Some "good-u1") "10.0.0.7" None) = inr s
      ∧ Socket.userId s = "u1"
      ∧ Socket.userAlias s = Some "alice"
      ∧ Socket.userAvatarIndex s = Some 3
      ∧ Socket.isAnonymous s = false)
  ∧ authenticate demo_verify demo_users no_faults
      (mkHandshake "k8" (Some "good-u9") "10.0.0.8" None) = inl "Authentication error"
  ∧ authenticate demo_verify demo_users no_faults
      (mkHandshake "k9" (Some "garbled") "10.0.0.9" None) = inl "Authentication error".
Proof.
  split; [|split; reflexivity].
  refine (proj2 (proj2 (authenticate_rejects_exactly_invalid_credentials
                   demo_verify demo_users no_faults
                   (mkHandshake "k7" (Some "good-u1") "10.0.0.7" None) eq_refl))
            (User.mk "u1" (Some "alice") (Some 3)) eq_refl _).
  exists (mkJwtPayload (Some (Some "u1"))). split; [reflexivity|].
  exists (Some "u1"). split; reflexivity.
Defined.

(** ** Moderation router *)

Lemma find_target_none (io : Registry) (participantId : string) :
  (∀ s, s ∈ io → Socket.userId s ≠ participantId) →
  find_target io participantId = None.
Proof. intros Hno. apply list_find_none. exact Hno. Qed.

Lemma find_target_some (io : Registry) (participantId : string) (t : Socket.t) :
  t ∈ io → Socket.userId t = participantId →
  ∃ i target,
    find_target io participantId = Some (i, target)
    ∧ io !! i = Some target
    ∧ Socket.userId target = participantId
    ∧ ∀ j s, io !! j = Some s → (j < i)%nat → Socket.userId s ≠ participantId.
Proof.
  intros Hin Hid. unfold find_target.
  destruct (list_find (λ s, Socket.userId s = participantId) io) as [[i target]|] eqn:Hfind.
  - apply list_find_Some in Hfind as Hspec. destruct Hspec as (Hi & Hp & Hfirst).
    exists i, target. split; [reflexivity|]. split; [exact Hi|].
    split; [exact Hp|]. exact Hfirst.
  - apply list_find_None in Hfind. rewrite Forall_forall in Hfind.
    destruct (Hfind t Hin Hid).
Qed.

(** C4, as stated, fails: bob is connected but has joined no chat room,
    no sanctuary, no host channel and no audio room, his only membership
    being the room of his own connection; alice kicks his id from
    "room-1", and [kicked_from_room] is emitted to bob's connection and
    [participant_kicked] to the audio room. *)
Lemma kick_reaches_connection_in_no_room :
  Socket.currentChatSession bob = None
  ∧ Socket.currentSanctuary bob = None
  ∧ Socket.currentSanctuaryHost bob = None
  ∧ Socket.currentAudioRoom bob = None
  ∧ Socket.rooms bob = {[Socket.id bob]}
  ∧ on_kick_participant env_1000 [alice; bob] alice "room-1" (Socket.userId bob)
    = ([alice; Socket.leave (audio_room "room-1") bob],
       [ Emit (ToSocket "k2") (kicked_from_room "room-1" "u1" 1000);
         Emit (ToRoom (audio_room "room-1") (Some "k1"))
           (participant_kicked "anonymous_k2" "u1" 1000) ]).
Proof. repeat split. Qed.

(** C4, amended. [kick_participant] is a no-op exactly when no live
    connection carries the target id X. When none does, the registry is
    unchanged and no event is emitted, neither a directed
    [kicked_from_room] nor a room-wide [participant_kicked], and nothing
    is reported to the acting connection. When some connection carries
    X, whatever rooms it has joined, the first such connection of the
    registry receives [kicked_from_room] and [participant_kicked] goes to
    the audio room except the actor. *)
Theorem kick_is_noop_exactly_without_carrier :
  ∀ (env : Env) (io : Registry) (actor : Socket.t) (sessionId participantId : string),
    ((∀ s, s ∈ io → Socket.userId s ≠ participantId) →
     on_kick_participant env io actor sessionId participantId = (io, []))
    ∧ (∀ t, t ∈ io → Socket.userId t = participantId →
         ∃ i target,
           io !! i = Some target
           ∧ Socket.userId target = participantId
           ∧ (∀ j s, io !! j = Some s → (j < i)%nat → Socket.userId s ≠ participantId)
           ∧ (on_kick_participant env io actor sessionId participantId).2
             = [ Emit (ToSocket (Socket.id target))
                   (kicked_from_room sessionId (Socket.userId actor) (now env));
                 Emit (ToRoom (audio_room sessionId) (Some (Socket.id actor)))
                   (participant_kicked participantId (Socket.userId actor) (now env)) ])
    ∧ ((on_kick_participant env io actor sessionId participantId).2 = [] →
       ∀ s, s ∈ io → Socket.userId s ≠ participantId).
Proof.
  intros env io actor sessionId participantId.
  assert (∀ t, t ∈ io → Socket.userId t = participantId →
            ∃ i target,
              io !! i = Some target
              ∧ Socket.userId target = participantId
              ∧ (∀ j s, io !! j = Some s → (j < i)%nat →
                        Socket.userId s ≠ participantId)
              ∧ (on_kick_participant env io actor sessionId participantId).2
                = [ Emit (ToSocket (Socket.id target))
                      (kicked_from_room sessionId (Socket.userId actor) (now env));
                    Emit (ToRoom (audio_room sessionId) (Some (Socket.id actor)))
                      (participant_kicked participantId (Socket.userId actor)
                         (now env)) ]) as Hkicked.
  { intros t Hin Hid.
    destruct (find_target_some io participantId t Hin Hid)
      as (i & target & Hfind & Hi & Htid & Hfirst).
    exists i, target. split; [exact Hi|]. split; [exact Htid|].
    split; [exact Hfirst|]. unfold on_kick_participant. rewrite Hfind. reflexivity. }
  split; [|split; [exact Hkicked|]].
  - intros Hnone. unfold on_kick_participant.
    rewrite (find_target_none io participantId Hnone). reflexivity.
  - intros Hsilent s Hs Hid.
    destruct (Hkicked s Hs Hid) as (i & target & _ & _ & _ & Hout).
    rewrite Hsilent in Hout. discriminate.
Qed.

(** ** Disconnect *)

Lemma when_set_run (ref : option string) (k : string → M unit) (st : St) :
  when_set ref k st = if truthy ref then k (default "" ref) st else (inr tt, st).
Proof. destruct ref as [v|]; simpl; [|reflexivity]. destruct (negb _); reflexivity. Qed.

Lemma disconnect_run env st :
  on_disconnect env st
  = (inr tt,
     mkSt (socket st) (hostSessions st) (sanctuarySessions st)
       (out st ++ left_chat env (socket st) ++ left_sanctuary env (socket st)
          ++ left_audio env (socket st))).
Proof.
  destruct st as [s hs ss tr].
  unfold on_disconnect, bind, get_socket, left_chat, left_sanctuary, left_audio.
  simpl socket.
  destruct (truthy (Socket.currentChatSession s)) eqn:E1,
           (truthy (Socket.currentSanctuary s)) eqn:E2,
           (truthy (Socket.currentSanctuaryHost s)) eqn:E3,
           (truthy (Socket.currentAudioRoom s)) eqn:E4;
    repeat first [ rewrite when_set_run
                 | progress rewrite ?E1, ?E2, ?E3, ?E4
                 | progress cbn -[chat_room sanctuary_room audio_room]
                 | progress unfold log ];
    rewrite <- ?app_assoc, ?app_nil_r; reflexivity.
Qed.

Lemma delete_drops_id (io : Registry) (i : nat) (s : Socket.t) :
  io !! i = Some s → NoDup (Socket.id <$> io) →
  ∀ s', s' ∈ delete i io → Socket.id s' ≠ Socket.id s.
Proof.
  intros Hi Hnd s' Hs' Heq.
  rewrite <- (take_drop_middle io i s Hi) in Hnd.
  rewrite fmap_app, fmap_cons in Hnd.
  apply NoDup_app in Hnd as (_ & Hdisj & Hnd).
  apply NoDup_cons in Hnd as (Hnotin & _).
  rewrite delete_take_drop in Hs'. apply elem_of_app in Hs' as [Hl | Hr].
  - apply (Hdisj (Socket.id s)).
    + rewrite <- Heq. apply list_elem_of_fmap_2. exact Hl.
    + left.
  - apply Hnotin. rewrite <- Heq. apply list_elem_of_fmap_2. exact Hr.
Qed.

(** C8, as stated, fails for the sanctuary-host channel: a connection
    whose only room is the host channel of sanctuary "s1" disconnects,
    and no event at all is emitted, so the host channel gets no left
    notification. *)
Lemma disconnect_is_silent_on_host_channel :
  Socket.currentSanctuaryHost (socket alice_as_host) = Some "s1"
  ∧ sanctuary_host_room "s1" ∈ Socket.rooms (socket alice_as_host)
  ∧ teardown env_1000 [socket alice_as_host] (hostSessions alice_as_host)
      (sanctuarySessions alice_as_host) 0
    = ([], []).
Proof.
  split; [reflexivity|]. split; [|reflexivity].
  change (sanctuary_host_room "s1" ∈ ({[sanctuary_host_room "s1"]} ∪ {["k1"]} : gset string)).
  set_solver.
Qed.

Lemma to_room_app room tr1 tr2 :
  to_room room (tr1 ++ tr2) = to_room room tr1 ++ to_room room tr2.
Proof. unfold to_room. apply omap_app. Qed.

Lemma teardown_run env io hosts sanctuaries i s :
  io !! i = Some s →
  teardown env io hosts sanctuaries i
  = (delete i io, left_chat env s ++ left_sanctuary env s ++ left_audio env s).
Proof.
  intros Hi. unfold teardown, exec. rewrite Hi, disconnect_run. reflexivity.
Qed.

(** C8, amended. When a connection is torn down, the disconnect handler
    emits one left notification for each of the chat room, the public
    sanctuary and the audio room the connection holds a (non-empty)
    reference to, and nothing else: exactly one [user_left] to the chat
    room, exactly one [participant_left] to the sanctuary and exactly one
    [audio_participant_left] to the audio room, each excluding the
    departing connection. A reference to a sanctuary-host channel adds no
    event. The connection leaves the registry, and with it every room.
    The handler runs to completion whatever references are absent. *)
Theorem disconnect_notifies_chat_sanctuary_audio :
  ∀ (env : Env) (io : Registry) (hosts : list HostSession.t)
    (sanctuaries : list SanctuarySession.t) (i : nat) (s : Socket.t),
    io !! i = Some s →
    NoDup (Socket.id <$> io) →
    let io' := (teardown env io hosts sanctuaries i).1 in
    let tr := (teardown env io hosts sanctuaries i).2 in
    (∀ c, Socket.currentChatSession s = Some c → c ≠ "" →
       to_room (chat_room c) tr
       = [user_left (Socket.userId s) (Socket.userAlias s) (now env)])
    ∧ (∀ c, Socket.currentSanctuary s = Some c → c ≠ "" →
       to_room (sanctuary_room c) tr
       = [participant_left (Socket.userId s) (Socket.userAlias s) (now env)])
    ∧ (∀ c, Socket.currentAudioRoom s = Some c → c ≠ "" →
       to_room (audio_room c) tr
       = [audio_participant_left (Socket.userId s) (Socket.userAlias s) (now env)])
    ∧ (∀ e, e ∈ tr →
       ∃ room ev, e = Emit (ToRoom room (Some (Socket.id s))) ev
                  ∧ is_left_notification ev)
    ∧ length tr = notified_refs s
    ∧ io' = delete i io
    ∧ (∀ s' room, s' ∈ members io' room → Socket.id s' ≠ Socket.id s).
Proof.
  intros env io hosts sanctuaries i s Hi Hnd io' tr. subst io' tr.
  rewrite (teardown_run _ _ _ _ _ _ Hi). cbn [fst snd].
  unfold left_chat, left_sanctuary, left_audio, notified_refs.
  repeat split.
  - intros c Hc Hne. rewrite Hc, (truthy_Some_true c Hne). cbn [default].
    rewrite !to_room_app. cbn [to_room omap list_omap].
    rewrite decide_True by reflexivity.
    destruct (truthy (Socket.currentSanctuary s)), (truthy (Socket.currentAudioRoom s));
      cbn [to_room omap list_omap app];
      repeat (rewrite decide_False by (unfold chat_room, sanctuary_room, audio_room;
                                       simpl; congruence));
      reflexivity.
  - intros c Hc Hne. rewrite Hc, (truthy_Some_true c Hne). cbn [default].
    rewrite !to_room_app. cbn [to_room omap list_omap].
    rewrite decide_True by reflexivity.
    destruct (truthy (Socket.currentChatSession s)), (truthy (Socket.currentAudioRoom s));
      cbn [to_room omap list_omap app];
      repeat (rewrite decide_False by (unfold chat_room, sanctuary_room, audio_room;
                                       simpl; congruence));
      reflexivity.
  - intros c Hc Hne. rewrite Hc, (truthy_Some_true c Hne). cbn [default].
    rewrite !to_room_app. cbn [to_room omap list_omap].
    rewrite decide_True by reflexivity.
    destruct (truthy (Socket.currentChatSession s)), (truthy (Socket.currentSanctuary s));
      cbn [to_room omap list_omap app];
      repeat (rewrite decide_False by (unfold chat_room, sanctuary_room, audio_room;
                                       simpl; congruence));
      reflexivity.
  - intros e He.
    destruct (truthy (Socket.currentChatSession s)),
             (truthy (Socket.currentSanctuary s)),
             (truthy (Socket.currentAudioRoom s));
      cbn [app] in He;
      repeat (apply elem_of_cons in He as [-> | He]; [eexists _, _; split; [reflexivity | exact I] |]);
      inversion He.
  - destruct (truthy (Socket.currentChatSession s)),
             (truthy (Socket.currentSanctuary s)),
             (truthy (Socket.currentAudioRoom s)); reflexivity.
  - intros s' room Hs'. unfold members in Hs'.
    apply list_elem_of_filter in Hs' as [_ Hs'].
    eapply delete_drops_id; eassumption.
Qed.

Lemma disconnect_notifies_chat_sanctuary_audio_witness :
  to_room (chat_room "A") (teardown env_1000 [bob; alice_chat_audio] [] [] 1).2
  = [user_left "u1" (Some "alice") 1000]
  ∧ to_room (audio_room "B") (teardown env_1000 [bob; alice_chat_audio] [] [] 1).2
    = [audio_participant_left "u1" (Some "alice") 1000]
  ∧ length (teardown env_1000 [bob; alice_chat_audio] [] [] 1).2 = 2%nat
  ∧ (teardown env_1000 [bob; alice_chat_audio] [] [] 1).1 = [bob].
Proof.
  assert (NoDup (Socket.id <$> [bob; alice_chat_audio])) as Hnd.
  { apply (bool_decide_unpack _). vm_compute. reflexivity. }
  pose proof (disconnect_notifies_chat_sanctuary_audio env_1000
                [bob; alice_chat_audio] [] [] 1 alice_chat_audio eq_refl Hnd)
    as (Hchat & _ & Haudio & _ & Hlen & Hio & _).
  split; [apply (Hchat "A"); [reflexivity | discriminate]|].
  split; [apply (Haudio "B"); [reflexivity | discriminate]|].
  split; [exact Hlen | exact Hio].
Defined.

(** ** Submission persistence bridge *)

(** The four ways a [sanctuary_message] run can go. *)
Lemma sanctuary_message_find_fault env sanctuaryId content type alias st message :
  faults env SanctuaryFindOne = Some message →
  exec (on_sanctuary_message env sanctuaryId content type alias) st
  = with_out [Emit (ToSocket (Socket.id (socket st)))
                (sanctuary_error "Failed to send message")] st.
Proof.
  intros Hf. unfold exec, on_sanctuary_message, try_catch, bind,
    SanctuarySession_findOne, await. rewrite Hf. reflexivity.
Qed.

Lemma sanctuary_message_not_found env sanctuaryId content type alias st :
  faults env SanctuaryFindOne = None →
  list_find (live_query sanctuaryId (now env)) (sanctuarySessions st) = None →
  exec (on_sanctuary_message env sanctuaryId content type alias) st
  = with_out [Emit (ToSocket (Socket.id (socket st)))
                (sanctuary_error "Sanctuary session not found or expired")] st.
Proof.
  intros Hf Hfind. unfold exec, on_sanctuary_message, try_catch, bind,
    SanctuarySession_findOne, await. rewrite Hf, Hfind. reflexivity.
Qed.

Lemma sanctuary_message_save_fault env sanctuaryId content type alias st i ss message :
  faults env SanctuaryFindOne = None →
  list_find (live_query sanctuaryId (now env)) (sanctuarySessions st) = Some (i, ss) →
  faults env SanctuarySave = Some message →
  exec (on_sanctuary_message env sanctuaryId content type alias) st
  = with_out [Emit (ToSocket (Socket.id (socket st)))
                (sanctuary_error "Failed to send message")] st.
Proof.
  intros Hf Hfind Hs. unfold exec, on_sanctuary_message, try_catch, bind,
    SanctuarySession_findOne, SanctuarySession_save, await, get_socket.
  rewrite Hf, Hfind, Hs. reflexivity.
Qed.

Lemma sanctuary_message_stored env sanctuaryId content type alias st i ss :
  faults env SanctuaryFindOne = None →
  list_find (live_query sanctuaryId (now env)) (sanctuarySessions st) = Some (i, ss) →
  faults env SanctuarySave = None →
  let message := new_submission env (socket st) content type alias in
  let submissions := SanctuarySession.submission_seq ss ++ [message] in
  exec (on_sanctuary_message env sanctuaryId content type alias) st
  = mkSt (socket st) (hostSessions st)
      (<[i := SanctuarySession.with_submissions submissions ss]> (sanctuarySessions st))
      (out st ++
         [ Stored SanctuarySave;
           Emit (ToRoom (sanctuary_room sanctuaryId) None) (sanctuary_new_message message);
           Emit (ToRoom (sanctuary_host_room sanctuaryId) None)
             (sanctuary_new_submission message (length submissions)) ]).
Proof.
  intros Hf Hfind Hs. cbv zeta. unfold exec, on_sanctuary_message, try_catch, bind,
    SanctuarySession_findOne, SanctuarySession_save, await, get_socket, emit_room, log.
  rewrite Hf, Hfind, Hs. cbn -[sanctuary_room sanctuary_host_room new_submission].
  rewrite <- ?app_assoc. reflexivity.
Qed.

(** C6. A [sanctuary_message] for a sanctuary id under which the store
    holds no active, unexpired document (each is inactive or has
    [expiresAt <= now], or there is none) emits a single [sanctuary_error]
    to the sender and nothing else, so nothing is broadcast to the
    sanctuary or host room, and leaves every stored submission sequence
    as it was. When the lookup itself answers, the reason is
    "Sanctuary session not found or expired". *)
Theorem sanctuary_message_rejected_when_expired :
  ∀ (env : Env) (st : St) (sanctuaryId content : string)
    (type alias : option string),
    (∀ s, s ∈ sanctuarySessions st → SanctuarySession.id s = sanctuaryId →
          SanctuarySession.isActive s = false
          ∨ (SanctuarySession.expiresAt s ≤ now env)%Z) →
    let st' := exec (on_sanctuary_message env sanctuaryId content type alias) st in
    sanctuarySessions st' = sanctuarySessions st
    ∧ hostSessions st' = hostSessions st
    ∧ socket st' = socket st
    ∧ (∃ reason,
         out st' = out st ++ [Emit (ToSocket (Socket.id (socket st)))
                                (sanctuary_error reason)]
         ∧ (faults env SanctuaryFindOne = None →
            reason = "Sanctuary session not found or expired")).
Proof.
  intros env st sanctuaryId content type alias Hdead st'. subst st'.
  assert (list_find (live_query sanctuaryId (now env)) (sanctuarySessions st) = None)
    as Hfind.
  { apply list_find_none. intros s Hs (Hid & Hact & Hexp).
    destruct (Hdead s Hs Hid) as [Hoff | Hpast]; [congruence | lia]. }
  destruct (faults env SanctuaryFindOne) as [message|] eqn:Hf.
  - rewrite (sanctuary_message_find_fault _ _ _ _ _ _ message Hf).
    repeat split. eexists. split; [reflexivity | discriminate].
  - rewrite (sanctuary_message_not_found _ _ _ _ _ _ Hf Hfind).
    repeat split. eexists. split; [reflexivity | reflexivity].
Qed.

Lemma sanctuary_message_rejected_when_expired_witness :
  let st' := exec (on_sanctuary_message env_1000 "sid-1" "hello" (Some "text") None)
               (mkSt bob [] [expired_sanctuary] []) in
  sanctuarySessions st' = [expired_sanctuary]
  ∧ out st' = [Emit (ToSocket "k2")
                 (sanctuary_error "Sanctuary session not found or expired")].
Proof.
  cbv zeta.
  pose proof (sanctuary_message_rejected_when_expired env_1000
                (mkSt bob [] [expired_sanctuary] []) "sid-1" "hello" (Some "text") None)
    as H.
  cbv zeta in H. destruct H as (Hstore & _ & _ & reason & Hout & Hreason).
  - intros s Hs _. apply list_elem_of_singleton in Hs as ->. right. simpl. lia.
  - split; [exact Hstore|]. rewrite Hout, (Hreason eq_refl). reflexivity.
Defined.

(** C3. In every run of [sanctuary_message], a broadcast to a room is
    preceded by the acknowledged write of the sanctuary document. If
    the write fails, the run emits only a [sanctuary_error] to the
    author: nothing is broadcast and the store is unchanged. If the
    write is acknowledged, the stored document carries the new
    submission at the end of its sequence, and the submission is
    broadcast to the sanctuary room and then, with the new length of the
    sequence, to the host room. *)
Theorem sanctuary_message_broadcasts_only_after_store :
  ∀ (env : Env) (s : Socket.t) (hosts : list HostSession.t)
    (sanctuaries : list SanctuarySession.t) (sanctuaryId content : string)
    (type alias : option string),
    let st' := exec (on_sanctuary_message env sanctuaryId content type alias)
                 (mkSt s hosts sanctuaries []) in
    (∀ pre e post, out st' = pre ++ e :: post → is_broadcast e →
       Stored SanctuarySave ∈ pre)
    ∧ (faults env SanctuarySave ≠ None →
       sanctuarySessions st' = sanctuaries
       ∧ ∃ reason, out st' = [Emit (ToSocket (Socket.id s)) (sanctuary_error reason)])
    ∧ (Stored SanctuarySave ∈ out st' →
       ∃ i ss,
         let message := new_submission env s content type alias in
         let submissions := SanctuarySession.submission_seq ss ++ [message] in
         sanctuaries !! i = Some ss
         ∧ live_query sanctuaryId (now env) ss
         ∧ sanctuarySessions st'
           = <[i := SanctuarySession.with_submissions submissions ss]> sanctuaries
         ∧ out st'
           = [ Stored SanctuarySave;
               Emit (ToRoom (sanctuary_room sanctuaryId) None)
                 (sanctuary_new_message message);
               Emit (ToRoom (sanctuary_host_room sanctuaryId) None)
                 (sanctuary_new_submission message (length submissions)) ])
    ∧ (Stored SanctuarySave ∉ out st' →
       sanctuarySessions st' = sanctuaries
       ∧ ∃ reason, out st' = [Emit (ToSocket (Socket.id s)) (sanctuary_error reason)]).
Proof.
  intros env s hosts sanctuaries sanctuaryId content type alias st'. subst st'.
  set (st := mkSt s hosts sanctuaries []).
  assert (∀ reason pre e post,
            [Emit (ToSocket (Socket.id s)) (sanctuary_error reason)] = pre ++ e :: post →
            is_broadcast e → Stored SanctuarySave ∈ pre) as Hsingle.
  { intros reason pre e post Heq Hb.
    destruct pre as [|x pre]; simpl in Heq.
    - injection Heq as <- _. destruct Hb.
    - injection Heq as _ Heq. destruct pre; discriminate. }
  assert (∀ reason,
            Stored SanctuarySave ∉ [Emit (ToSocket (Socket.id s)) (sanctuary_error reason)])
    as Hnot.
  { intros reason Hin. apply list_elem_of_singleton in Hin. discriminate. }
  destruct (faults env SanctuaryFindOne) as [message|] eqn:Hf.
  { rewrite (sanctuary_message_find_fault _ _ _ _ _ st message Hf).
    unfold with_out, st; simpl. repeat split; eauto.
    intros Hin. destruct (Hnot _ Hin). }
  destruct (list_find (live_query sanctuaryId (now env)) sanctuaries) as [[i ss]|] eqn:Hfind.
  2:{ rewrite (sanctuary_message_not_found _ _ _ _ _ st Hf Hfind).
      unfold with_out, st; simpl. repeat split; eauto.
      intros Hin. destruct (Hnot _ Hin). }
  destruct (faults env SanctuarySave) as [message|] eqn:Hs.
  { rewrite (sanctuary_message_save_fault _ _ _ _ _ st i ss message Hf Hfind Hs).
    unfold with_out, st; simpl. repeat split; eauto.
    intros Hin. destruct (Hnot _ Hin). }
  rewrite (sanctuary_message_stored _ _ _ _ _ st i ss Hf Hfind Hs).
  unfold st; cbn [out sanctuarySessions socket app].
  apply list_find_Some in Hfind as (Hi & Hlive & _).
  split; [|split; [|split]].
  - intros pre e post Heq Hb. destruct pre as [|x pre]; simpl in Heq.
    + injection Heq as <- _. destruct Hb.
    + injection Heq as <- _. left.
  - intros Hne. congruence.
  - intros _. exists i, ss. cbv zeta. auto.
  - intros Hnin. destruct Hnin. left.
Qed.

(** ** Host authorization *)

(** No session answers the token, and the caller cannot take the owner
    path: the join is refused and nothing but the trace changes. *)
Lemma join_host_refused env sanctuaryId hostToken st :
  (truthy hostToken = true → faults env HostFindOne = None →
   list_find (host_query (default "" hostToken) sanctuaryId (now env))
     (hostSessions st) = None) →
  (Socket.isAnonymous (socket st) = false → faults env OwnerFindOne = None →
   list_find (owner_query sanctuaryId (Socket.userId (socket st)) (now env))
     (sanctuarySessions st) = None) →
  ∃ details,
    exec (on_join_sanctuary_host env sanctuaryId hostToken) st
    = with_out [auth_failed sanctuaryId details (socket st)] st.
Proof.
  intros Hhost Howner. unfold_host_join.
  destruct (truthy hostToken) eqn:Ht.
  - destruct (faults env HostFindOne) as [m|] eqn:Hf; [eexists; reflexivity|].
    rewrite (Hhost eq_refl eq_refl). cbn [missing negb andb fst snd].
    destruct (Socket.isAnonymous (socket st)) eqn:Ha; cbn [negb andb fst snd].
    + eexists; reflexivity.
    + destruct (faults env OwnerFindOne) as [m|] eqn:Hfo; [eexists; reflexivity|].
      rewrite (Howner eq_refl eq_refl). eexists; reflexivity.
  - cbn [missing negb andb fst snd].
    destruct (Socket.isAnonymous (socket st)) eqn:Ha; cbn [negb andb fst snd].
    + eexists; reflexivity.
    + destruct (faults env OwnerFindOne) as [m|] eqn:Hfo; [eexists; reflexivity|].
      rewrite (Howner eq_refl eq_refl). eexists; reflexivity.
Qed.


(** The token answers to a stored session and the sanctuary is live. *)
Lemma join_host_by_token env sanctuaryId token st i h j ss :
  token ≠ "" →
  faults env HostFindOne = None →
  faults env HostUpdateAccess = None →
  faults env SanctuaryFindOne = None →
  list_find (host_query token sanctuaryId (now env)) (hostSessions st) = Some (i, h) →
  list_find (live_query sanctuaryId (now env)) (sanctuarySessions st) = Some (j, ss) →
  exec (on_join_sanctuary_host env sanctuaryId (Some token)) st
  = mkSt (joined_as_host sanctuaryId (HostSession.hostToken h) (socket st))
      (<[i := HostSession.with_lastAccessed (now env) h]> (hostSessions st))
      (sanctuarySessions st)
      (out st ++
         [ Stored HostUpdateAccess;
           Emit (ToSocket (Socket.id (socket st)))
             (host_snapshot sanctuaryId (HostSession.with_lastAccessed (now env) h) ss) ]).
Proof.
  intros Hne Hf1 Hf2 Hf3 Hh Hs. unfold_host_join.
  rewrite (truthy_Some_true token Hne), Hf1. cbn [from_option id]. rewrite Hh.
  cbn [missing negb andb fst snd]. rewrite Hf2, Hf3.
  cbn [fst snd socket hostSessions sanctuarySessions out]. rewrite Hs.
  cbn [fst snd socket hostSessions sanctuarySessions out].
  rewrite <- ?app_assoc. reflexivity.
Qed.

(** No token, and the caller owns the live sanctuary: a session is
    minted, saved, touched, and the caller joins. *)
Lemma join_host_by_owner env sanctuaryId st j ss :
  Socket.isAnonymous (socket st) = false →
  faults env OwnerFindOne = None →
  faults env HostSave = None →
  faults env HostUpdateAccess = None →
  list_find (owner_query sanctuaryId (Socket.userId (socket st)) (now env))
    (sanctuarySessions st) = Some (j, ss) →
  let minted := HostSession_new env sanctuaryId (nonce env) (Socket.userId (socket st))
                  (Socket.address (socket st)) (Socket.user_agent (socket st))
                  (SanctuarySession.expiresAt ss) in
  exec (on_join_sanctuary_host env sanctuaryId None) st
  = mkSt (joined_as_host sanctuaryId (nonce env) (socket st))
      (hostSessions st ++ [minted])
      (sanctuarySessions st)
      (out st ++
         [ Stored HostSave; Stored HostUpdateAccess;
           Emit (ToSocket (Socket.id (socket st)))
             (host_snapshot sanctuaryId minted ss) ]).
Proof.
  intros Ha Hf1 Hf2 Hf3 Hs minted. unfold_host_join.
  cbn [truthy missing negb andb fst snd]. rewrite Ha, Hf1.
  cbn [negb andb fst snd socket hostSessions sanctuarySessions out]. rewrite Hs, Hf2.
  cbn [fst snd socket hostSessions sanctuarySessions out]. rewrite Hf3.
  cbn [fst snd socket hostSessions sanctuarySessions out].
  rewrite insert_app_r_alt by lia. rewrite Nat.sub_diag.
  rewrite <- ?app_assoc. reflexivity.
Qed.

Lemma lastActivity_empty (s : SanctuarySession.t) :
  SanctuarySession.submission_seq s = [] → lastActivity s = SanctuarySession.createdAt s.
Proof. intros H. unfold lastActivity. rewrite H. reflexivity. Qed.

Lemma lastActivity_last (s : SanctuarySession.t) (l : list Submission.t) (m : Submission.t) :
  SanctuarySession.submission_seq s = l ++ [m] → lastActivity s = Submission.timestamp m.
Proof. intros H. unfold lastActivity. rewrite H, last_snoc. reflexivity. Qed.

(** An expired token from a caller without the owner path, anonymous or
    owning no live sanctuary of that id, is refused whatever the store
    does with a save. *)
Lemma expired_token_refused_without_owner_path :
  ∀ (env : Env) (st : St) (h : HostSession.t) (sanctuaryId : string),
    h ∈ hostSessions st →
    (HostSession.expiresAt h ≤ now env)%Z →
    (∀ h', h' ∈ hostSessions st →
           HostSession.hostToken h' = HostSession.hostToken h → h' = h) →
    (Socket.isAnonymous (socket st) = true
     ∨ ∀ s, s ∈ sanctuarySessions st →
            ¬ owner_query sanctuaryId (Socket.userId (socket st)) (now env) s) →
    ∃ details,
      exec (on_join_sanctuary_host env sanctuaryId (Some (HostSession.hostToken h))) st
      = with_out [auth_failed sanctuaryId details (socket st)] st.
Proof.
  intros env st h sanctuaryId Hin Hexp Huniq Hcaller.
  apply join_host_refused.
  - intros _ _. apply list_find_none. intros h' Hh' (Htok & _ & _ & Hlive).
    cbn in Htok. rewrite (Huniq h' Hh' Htok) in Hlive. lia.
  - intros Hauth _. destruct Hcaller as [Hanon | Hnot]; [congruence|].
    apply list_find_none. exact Hnot.
Qed.



(** C2. Let S be a stored sanctuary that is active and unexpired (ids
    identifying sanctuaries), and let the store hold an active,
    unexpired HostSession of S with the non-empty token T. With a store
    that answers, [join_sanctuary_host(S, T)] succeeds: the connection
    joins the host channel of S, and the only event of the run is a
    [sanctuary_host_joined] to the caller with [submissionsCount] the
    length of S's submission sequence, [lastActivity] the timestamp of
    the last submission (S's creation time when there is none), the
    token T, and S's topic, description, emoji and expiry. *)
Theorem join_host_with_live_token :
  ∀ (env : Env) (st : St) (S : SanctuarySession.t) (h : HostSession.t) (T : string),
    S ∈ sanctuarySessions st →
    SanctuarySession.isActive S = true →
    now env < SanctuarySession.expiresAt S →
    (∀ S', S' ∈ sanctuarySessions st →
           SanctuarySession.id S' = SanctuarySession.id S → S' = S) →
    h ∈ hostSessions st →
    HostSession.hostToken h = T →
    T ≠ "" →
    HostSession.sanctuaryId h = SanctuarySession.id S →
    HostSession.isActive h = true →
    now env < HostSession.expiresAt h →
    faults env HostFindOne = None →
    faults env HostUpdateAccess = None →
    faults env SanctuaryFindOne = None →
    let st' := exec (on_join_sanctuary_host env (SanctuarySession.id S) (Some T)) st in
    sanctuary_host_room (SanctuarySession.id S) ∈ Socket.rooms (socket st')
    ∧ Socket.currentSanctuaryHost (socket st') = Some (SanctuarySession.id S)
    ∧ Socket.hostToken (socket st') = Some T
    ∧ ∃ last_activity,
        emitted (out st')
        = emitted (out st) ++
            [(ToSocket (Socket.id (socket st)),
              sanctuary_host_joined (SanctuarySession.id S)
                (length (SanctuarySession.submission_seq S))
                last_activity T
                (SanctuarySession.topic S) (SanctuarySession.description S)
                (SanctuarySession.emoji S) (SanctuarySession.expiresAt S))]
        ∧ (SanctuarySession.submission_seq S = [] →
           last_activity = SanctuarySession.createdAt S)
        ∧ (∀ l m, SanctuarySession.submission_seq S = l ++ [m] →
                  last_activity = Submission.timestamp m).
Proof.
  intros env st S h T HS Hact Hexp Huniq Hh Htok Hne Hsid Hhact Hhexp Hf1 Hf2 Hf3 st'.
  subst st'.
  destruct (list_find (host_query T (SanctuarySession.id S) (now env)) (hostSessions st))
    as [[i h0]|] eqn:Hfind.
  2:{ apply list_find_None in Hfind. rewrite Forall_forall in Hfind.
      destruct (Hfind h Hh). repeat split; assumption. }
  apply list_find_Some in Hfind as Hh0. destruct Hh0 as (_ & (Htok0 & _) & _).
  destruct (list_find_unique (live_query (SanctuarySession.id S) (now env))
              (sanctuarySessions st) S HS) as (j & Hlive & _).
  { repeat split; assumption. }
  { intros S' HS' (Hid & _). apply Huniq; assumption. }
  rewrite (join_host_by_token env _ T st i h0 j S Hne Hf1 Hf2 Hf3 Hfind Hlive).
  cbn [socket out]. rewrite Htok0. split; [|split; [|split]].
  - unfold joined_as_host. cbn [Socket.rooms Socket.set_hostToken
      Socket.set_currentSanctuaryHost Socket.join]. set_solver.
  - reflexivity.
  - reflexivity.
  - exists (lastActivity S). split; [|split].
    + rewrite emitted_app. unfold host_snapshot. cbn [emitted omap list_omap
        HostSession.hostToken HostSession.with_lastAccessed]. rewrite Htok0. reflexivity.
    + apply lastActivity_empty.
    + apply lastActivity_last.
Qed.

Lemma join_host_with_live_token_witness :
  emitted (out (exec (on_join_sanctuary_host env_1000 "s1" (Some "T-live"))
                  (mkSt bob [expired_host_session; live_host_session]
                     [busy_sanctuary] [])))
  = [(ToSocket "k2",
      sanctuary_host_joined "s1" 2 20 "T-live" "topic" "about" "*" 2000)].
Proof.
  pose proof (join_host_with_live_token env_1000
                (mkSt bob [expired_host_session; live_host_session] [busy_sanctuary] [])
                busy_sanctuary live_host_session "T-live") as H.
  cbv zeta in H.
  destruct H as (_ & _ & _ & la & Hout & _ & Hlast);
    [ try reflexivity; try discriminate .. | ].
  - left.
  - intros S' HS' _. apply list_elem_of_singleton in HS'. exact HS'.
  - right. left.
  - refine (eq_trans Hout _).
    rewrite (Hlast [Submission.mk "sanctuary_msg_10_aa" "anonymous_k2" "Anonymous"
                      "hi" "text" 10]
               (Submission.mk "sanctuary_msg_20_bb" "anonymous_k2" "Anonymous"
                  "yo" "text" 20) eq_refl).
    reflexivity.
Defined.

(** C7. An authenticated connection whose identity is the recorded owner
    of an active, unexpired sanctuary (ids identifying sanctuaries) sends
    [join_sanctuary_host] without a token. With a store that answers,
    one HostSession is added to the store: bound to that owner, active,
    carrying the freshly generated token and the sanctuary's expiry. The
    connection joins the host channel and the only event of the run is a
    [sanctuary_host_joined] to it that carries that token and the
    sanctuary's submission count, which is 0 for a sanctuary without
    submissions. *)
Theorem owner_join_mints_host_session :
  ∀ (env : Env) (st : St) (S : SanctuarySession.t),
    Socket.isAnonymous (socket st) = false →
    S ∈ sanctuarySessions st →
    SanctuarySession.hostId S = Some (Socket.userId (socket st)) →
    SanctuarySession.isActive S = true →
    now env < SanctuarySession.expiresAt S →
    (∀ S', S' ∈ sanctuarySessions st →
           SanctuarySession.id S' = SanctuarySession.id S → S' = S) →
    faults env OwnerFindOne = None →
    faults env HostSave = None →
    faults env HostUpdateAccess = None →
    let st' := exec (on_join_sanctuary_host env (SanctuarySession.id S) None) st in
    (∃ minted,
       hostSessions st' = hostSessions st ++ [minted]
       ∧ HostSession.sanctuaryId minted = SanctuarySession.id S
       ∧ HostSession.hostToken minted = nonce env
       ∧ HostSession.hostId minted = Some (Socket.userId (socket st))
       ∧ HostSession.expiresAt minted = SanctuarySession.expiresAt S
       ∧ HostSession.isActive minted = true)
    ∧ Stored HostSave ∈ out st'
    ∧ sanctuary_host_room (SanctuarySession.id S) ∈ Socket.rooms (socket st')
    ∧ Socket.currentSanctuaryHost (socket st') = Some (SanctuarySession.id S)
    ∧ Socket.hostToken (socket st') = Some (nonce env)
    ∧ (∃ last_activity,
         emitted (out st')
         = emitted (out st) ++
             [(ToSocket (Socket.id (socket st)),
               sanctuary_host_joined (SanctuarySession.id S)
                 (length (SanctuarySession.submission_seq S))
                 last_activity (nonce env)
                 (SanctuarySession.topic S) (SanctuarySession.description S)
                 (SanctuarySession.emoji S) (SanctuarySession.expiresAt S))]
         ∧ (SanctuarySession.submission_seq S = [] →
            last_activity = SanctuarySession.createdAt S)
         ∧ (∀ l m, SanctuarySession.submission_seq S = l ++ [m] →
                   last_activity = Submission.timestamp m))
    ∧ (SanctuarySession.submission_seq S = [] →
       length (SanctuarySession.submission_seq S) = 0%nat).
Proof.
  intros env st S Hauth HS Hown Hact Hexp Huniq Hf1 Hf2 Hf3 st'. subst st'.
  destruct (list_find_unique
              (owner_query (SanctuarySession.id S) (Socket.userId (socket st)) (now env))
              (sanctuarySessions st) S HS) as (j & Hfind & _).
  { repeat split; assumption. }
  { intros S' HS' (Hid & _). apply Huniq; assumption. }
  rewrite (join_host_by_owner env _ st j S Hauth Hf1 Hf2 Hf3 Hfind).
  cbn [socket out hostSessions]. split; [|split; [|split; [|split; [|split; [|split]]]]].
  - eexists. split; [reflexivity|]. repeat split.
  - apply elem_of_app. right. left.
  - unfold joined_as_host. cbn [Socket.rooms Socket.set_hostToken
      Socket.set_currentSanctuaryHost Socket.join]. set_solver.
  - reflexivity.
  - reflexivity.
  - exists (lastActivity S). rewrite emitted_app.
    split; [reflexivity|]. split; [apply lastActivity_empty | apply lastActivity_last].
  - intros ->. reflexivity.
Qed.

Lemma owner_join_mints_host_session_witness :
  let st' := exec (on_join_sanctuary_host env_1000 "s1" None)
               (mkSt alice [] [fresh_sanctuary] []) in
  (∃ minted,
     hostSessions st' = [minted]
     ∧ HostSession.hostToken minted = "n4n0"
     ∧ HostSession.hostId minted = Some "u1"
     ∧ HostSession.expiresAt minted = 2000)
  ∧ emitted (out st')
    = [(ToSocket "k1",
        sanctuary_host_joined "s1" 0 5 "n4n0" "topic" "about" "*" 2000)].
Proof.
  cbv zeta.
  pose proof (owner_join_mints_host_session env_1000
                (mkSt alice [] [fresh_sanctuary] []) fresh_sanctuary) as H.
  cbv zeta in H.
  destruct H as ((minted & Hstore & _ & Htok & Hid & Hexp & _)
                 & _ & _ & _ & _ & (la & Hout & Hempty & _) & _);
    [ try reflexivity .. | ].
  - left.
  - intros S' HS' _. apply list_elem_of_singleton in HS'. exact HS'.
  - split.
    + exists minted. split; [exact Hstore|]. split; [exact Htok|].
      split; [exact Hid | exact Hexp].
    + refine (eq_trans Hout _). rewrite (Hempty eq_refl). reflexivity.
Defined.

(** * Further properties of the handlers *)

(** ** Moderation router: the target is connected *)

(** X1. When some live connection carries the target id,
    [kick_participant] acts on the first such connection of the registry:
    it emits [kicked_from_room] to that connection and then
    [participant_kicked] to the audio room except the actor, and takes the
    connection out of the audio room, keeping its other memberships. The
    kicked connection does not receive the room notice, and every other
    connection, a later connection with the same id included, is left as
    it was. *)
Theorem kick_removes_first_connection_of_target :
  ∀ (env : Env) (io : Registry) (actor t : Socket.t) (sessionId participantId : string),
    t ∈ io →
    Socket.userId t = participantId →
    ∃ i target target',
      io !! i = Some target
      ∧ Socket.userId target = participantId
      ∧ (∀ j s, io !! j = Some s → (j < i)%nat → Socket.userId s ≠ participantId)
      ∧ (on_kick_participant env io actor sessionId participantId).2
        = [ Emit (ToSocket (Socket.id target))
              (kicked_from_room sessionId (Socket.userId actor) (now env));
            Emit (ToRoom (audio_room sessionId) (Some (Socket.id actor)))
              (participant_kicked participantId (Socket.userId actor) (now env)) ]
      ∧ ((on_kick_participant env io actor sessionId participantId).1) !! i = Some target'
      ∧ Socket.id target' = Socket.id target
      ∧ (audio_room sessionId ∉ Socket.rooms target')
      ∧ (∀ room, room ≠ audio_room sessionId →
           (room ∈ Socket.rooms target' ↔ room ∈ Socket.rooms target))
      ∧ ¬ receives target' (ToRoom (audio_room sessionId) (Some (Socket.id actor)))
      ∧ (∀ j, j ≠ i →
           ((on_kick_participant env io actor sessionId participantId).1) !! j = io !! j).
Proof.
  intros env io actor t sessionId participantId Hin Hid.
  destruct (find_target_some io participantId t Hin Hid)
    as (i & target & Hfind & Hi & Htid & Hfirst).
  exists i, target, (Socket.leave (audio_room sessionId) target).
  unfold on_kick_participant. rewrite Hfind. cbn [fst snd].
  assert (audio_room sessionId ∉ Socket.rooms (Socket.leave (audio_room sessionId) target))
    as Hout.
  { cbn [Socket.leave Socket.rooms]. rewrite elem_of_difference, elem_of_singleton.
    intros [_ Hne]. apply Hne. reflexivity. }
  split; [exact Hi|]. split; [exact Htid|]. split; [exact Hfirst|].
  split; [reflexivity|].
  split; [apply list_lookup_insert_eq; eapply lookup_lt_Some; eassumption|].
  split; [reflexivity|]. split; [exact Hout|].
  split.
  { intros room Hne. cbn [Socket.leave Socket.rooms].
    rewrite elem_of_difference, elem_of_singleton. tauto. }
  split; [intros [Hmem _]; apply Hout, Hmem|].
  intros j Hne. apply list_lookup_insert_ne. congruence.
Qed.

Lemma kick_removes_first_connection_of_target_witness :
  ∃ i target target',
    [bob; alice_chat_audio; alice] !! i = Some target
    ∧ Socket.userId target = "u1"
    ∧ (∀ j s, [bob; alice_chat_audio; alice] !! j = Some s → (j < i)%nat →
              Socket.userId s ≠ "u1")
    ∧ (on_kick_participant env_1000 [bob; alice_chat_audio; alice] bob "B" "u1").2
      = [ Emit (ToSocket (Socket.id target))
            (kicked_from_room "B" (Socket.userId bob) (now env_1000));
          Emit (ToRoom (audio_room "B") (Some (Socket.id bob)))
            (participant_kicked "u1" (Socket.userId bob) (now env_1000)) ]
    ∧ ((on_kick_participant env_1000 [bob; alice_chat_audio; alice] bob "B" "u1").1) !! i
      = Some target'
    ∧ Socket.id target' = Socket.id target
    ∧ (audio_room "B" ∉ Socket.rooms target')
    ∧ (∀ room, room ≠ audio_room "B" →
         (room ∈ Socket.rooms target' ↔ room ∈ Socket.rooms target))
    ∧ ¬ receives target' (ToRoom (audio_room "B") (Some (Socket.id bob)))
    ∧ (∀ j, j ≠ i →
         ((on_kick_participant env_1000 [bob; alice_chat_audio; alice] bob "B" "u1").1) !! j
         = [bob; alice_chat_audio; alice] !! j).
Proof.
  apply (kick_removes_first_connection_of_target env_1000
           [bob; alice_chat_audio; alice] bob alice "B" "u1").
  - right. right. left.
  - reflexivity.
Defined.

(** X2. When no live connection carries the target id, the other
    directed actions are as silent as the kick: [promote_to_speaker],
    [mute_participant], [request_voice_chat] and [voice_chat_response]
    emit nothing, to the target, to the room or to the actor. *)
Theorem directed_actions_without_target_emit_nothing :
  ∀ (env : Env) (io : Registry) (actor : Socket.t) (sessionId participantId : string)
    (accepted : bool),
    (∀ s, s ∈ io → Socket.userId s ≠ participantId) →
    on_promote_to_speaker env io actor sessionId participantId = []
    ∧ on_mute_participant env io actor sessionId participantId = []
    ∧ on_request_voice_chat env io actor participantId sessionId = []
    ∧ on_voice_chat_response env io actor participantId accepted sessionId = [].
Proof.
  intros env io actor sessionId participantId accepted Hnone.
  unfold on_promote_to_speaker, on_mute_participant, on_request_voice_chat,
    on_voice_chat_response.
  rewrite (find_target_none io participantId Hnone). repeat split.
Qed.

Lemma directed_actions_without_target_emit_nothing_witness :
  on_promote_to_speaker env_1000 [alice; bob] alice "B" "ghost" = []
  ∧ on_mute_participant env_1000 [alice; bob] alice "B" "ghost" = []
  ∧ on_request_voice_chat env_1000 [alice; bob] alice "ghost" "B" = []
  ∧ on_voice_chat_response env_1000 [alice; bob] alice "ghost" true "B" = [].
Proof.
  apply directed_actions_without_target_emit_nothing.
  intros s Hs Hid.
  apply elem_of_cons in Hs as [-> | Hs]; [discriminate|].
  apply list_elem_of_singleton in Hs as ->. discriminate.
Defined.

(** X3. When the target is connected, [mute_participant] and
    [promote_to_speaker] notify the first connection of the registry
    carrying the id, no earlier connection carrying it, and then the
    whole audio room, and the registry is not an output: nobody leaves a
    room. An actor that is in the audio room receives the room notice of
    a mute or a promotion, but not the one of its own kick. *)
Theorem mute_and_promote_notify_whole_room :
  ∀ (env : Env) (io : Registry) (actor t : Socket.t) (sessionId participantId : string),
    t ∈ io →
    Socket.userId t = participantId →
    audio_room sessionId ∈ Socket.rooms actor →
    ∃ i target,
      io !! i = Some target
      ∧ target ∈ io
      ∧ Socket.userId target = participantId
      ∧ (∀ j s, io !! j = Some s → (j < i)%nat → Socket.userId s ≠ participantId)
      ∧ on_mute_participant env io actor sessionId participantId
        = [ (ToSocket (Socket.id target),
             force_muted sessionId (Socket.userId actor) (now env));
            (ToRoom (audio_room sessionId) None,
             participant_muted participantId (Socket.userId actor) (now env)) ]
      ∧ on_promote_to_speaker env io actor sessionId participantId
        = [ (ToSocket (Socket.id target),
             promoted_to_speaker sessionId (Socket.userId actor) (now env));
            (ToRoom (audio_room sessionId) None,
             speaker_promoted participantId (Socket.userId actor) (now env)) ]
      ∧ receives actor (ToRoom (audio_room sessionId) None)
      ∧ ∀ to ev, Emit to ev ∈ (on_kick_participant env io actor sessionId participantId).2 →
                 is_broadcast (Emit to ev) → ¬ receives actor to.
Proof.
  intros env io actor t sessionId participantId Hin Hid Hmember.
  destruct (find_target_some io participantId t Hin Hid)
    as (i & target & Hfind & Hi & Htid & Hfirst).
  exists i, target. unfold on_mute_participant, on_promote_to_speaker, on_kick_participant.
  rewrite Hfind. cbn [fst snd].
  split; [exact Hi|].
  split; [eapply list_elem_of_lookup_2; eassumption|].
  split; [assumption|]. split; [exact Hfirst|].
  split; [reflexivity|]. split; [reflexivity|].
  split; [split; [assumption | discriminate]|].
  intros to ev Hev Hb.
  apply elem_of_cons in Hev as [Heq | Hev].
  - injection Heq as -> _. destruct Hb.
  - apply list_elem_of_singleton in Hev. injection Hev as -> _.
    intros [_ Hex]. apply Hex. reflexivity.
Qed.

Lemma mute_and_promote_notify_whole_room_witness :
  (∃ i target,
     [bob; carol; alice_chat_audio; carol_second_tab] !! i = Some target
     ∧ target ∈ [bob; carol; alice_chat_audio; carol_second_tab]
     ∧ Socket.userId target = "u3"
     ∧ (∀ j s, [bob; carol; alice_chat_audio; carol_second_tab] !! j = Some s →
               (j < i)%nat → Socket.userId s ≠ "u3")
     ∧ on_mute_participant env_1000 [bob; carol; alice_chat_audio; carol_second_tab]
         alice_chat_audio "B" "u3"
       = [ (ToSocket (Socket.id target),
            force_muted "B" (Socket.userId alice_chat_audio) (now env_1000));
           (ToRoom (audio_room "B") None,
            participant_muted "u3" (Socket.userId alice_chat_audio) (now env_1000)) ]
     ∧ on_promote_to_speaker env_1000 [bob; carol; alice_chat_audio; carol_second_tab]
         alice_chat_audio "B" "u3"
       = [ (ToSocket (Socket.id target),
            promoted_to_speaker "B" (Socket.userId alice_chat_audio) (now env_1000));
           (ToRoom (audio_room "B") None,
            speaker_promoted "u3" (Socket.userId alice_chat_audio) (now env_1000)) ]
     ∧ receives alice_chat_audio (ToRoom (audio_room "B") None)
     ∧ ∀ to ev,
         Emit to ev ∈ (on_kick_participant env_1000
                         [bob; carol; alice_chat_audio; carol_second_tab]
                         alice_chat_audio "B" "u3").2 →
         is_broadcast (Emit to ev) → ¬ receives alice_chat_audio to)
  ∧ on_mute_participant env_1000 [bob; carol; alice_chat_audio; carol_second_tab]
      alice_chat_audio "B" "u3"
    = [ (ToSocket "k3", force_muted "B" "u1" 1000);
        (ToRoom (audio_room "B") None, participant_muted "u3" "u1" 1000) ].
Proof.
  split; [|reflexivity].
  apply (mute_and_promote_notify_whole_room env_1000
           [bob; carol; alice_chat_audio; carol_second_tab]
           alice_chat_audio carol_second_tab "B" "u3").
  - right. right. right. left.
  - reflexivity.
  - change (audio_room "B" ∈ ({[audio_room "B"]} ∪ ({[chat_room "A"]} ∪ {["k1"]})
                              : gset string)).
    set_solver.
Defined.

(** ** Chat signalling *)

(** X4. After [join_chat] for a session, the connection's
    [send_message] to that session emits one [new_message], carrying the
    sender's id, the content and the session, to the whole chat room,
    and it comes back to the sender. Its typing indicator and its
    delivery or read receipt are each one event to the room except the
    sender, and do not come back. *)
Theorem own_chat_message_is_echoed_typing_is_not :
  ∀ (env : Env) (st : St) (sessionId content messageId status : string)
    (userType type attachment : option string) (isExpert : option bool)
    (isTyping : bool),
    let s := socket (exec (on_join_chat env sessionId userType) st) in
    (∃ message,
       on_send_message env s sessionId content type attachment isExpert
       = [(ToRoom (chat_room sessionId) None, new_message message)]
       ∧ ChatMessage.sender_id message = Socket.userId (socket st)
       ∧ ChatMessage.content message = content
       ∧ ChatMessage.sessionId message = sessionId
       ∧ ChatMessage.timestamp message = now env
       ∧ receives s (ToRoom (chat_room sessionId) None))
    ∧ (on_typing s sessionId isTyping
       = [(ToRoom (chat_room sessionId) (Some (Socket.id s)),
           user_typing (Socket.userId (socket st)) (Socket.userAlias (socket st))
             isTyping)]
       ∧ ¬ receives s (ToRoom (chat_room sessionId) (Some (Socket.id s))))
    ∧ (on_message_status s messageId sessionId status
       = [(ToRoom (chat_room sessionId) (Some (Socket.id s)),
           message_status_update messageId status (Socket.userId (socket st)))]
       ∧ ¬ receives s (ToRoom (chat_room sessionId) (Some (Socket.id s))))
    ∧ (∀ to sg, (to, sg) ∈ on_send_message env s sessionId content type attachment isExpert →
                receives s to)
    ∧ (∀ to sg, (to, sg) ∈ on_typing s sessionId isTyping → ¬ receives s to)
    ∧ (∀ to sg, (to, sg) ∈ on_message_status s messageId sessionId status →
                ¬ receives s to).
Proof.
  intros env st sessionId content messageId status userType type attachment isExpert
    isTyping s.
  assert (chat_room sessionId ∈ Socket.rooms s) as Hmember.
  { subst s. unfold exec. rewrite join_chat_run.
    cbn [snd socket Socket.rooms Socket.set_currentChatSession Socket.join].
    apply elem_of_union_l, elem_of_singleton. reflexivity. }
  assert (Socket.userId s = Socket.userId (socket st)
          ∧ Socket.userAlias s = Socket.userAlias (socket st)) as [Hid Halias].
  { subst s. unfold exec. rewrite join_chat_run. split; reflexivity. }
  split; [|split; [|split; [|split; [|split]]]].
  - eexists. split; [reflexivity|]. cbn [ChatMessage.sender_id ChatMessage.content
      ChatMessage.sessionId ChatMessage.timestamp].
    split; [exact Hid|]. split; [reflexivity|]. split; [reflexivity|].
    split; [reflexivity|]. split; [exact Hmember | discriminate].
  - unfold on_typing. rewrite Hid, Halias. split; [reflexivity|].
    intros [_ Hex]. apply Hex. reflexivity.
  - unfold on_message_status. rewrite Hid. split; [reflexivity|].
    intros [_ Hex]. apply Hex. reflexivity.
  - intros to sg Hin. apply list_elem_of_singleton in Hin; injection Hin as -> _.
    split; [exact Hmember | discriminate].
  - intros to sg Hin. apply list_elem_of_singleton in Hin; injection Hin as -> _.
    intros [_ Hex]. apply Hex. reflexivity.
  - intros to sg Hin. apply list_elem_of_singleton in Hin; injection Hin as -> _.
    intros [_ Hex]. apply Hex. reflexivity.
Qed.

(** ** What no handler changes *)

Lemma same_identity_refl (a : Socket.t) : same_identity a a.
Proof. repeat split. Qed.

(** A [sanctuary_message] run either reports an error and changes only
    the trace, or stores the submission in one live document. *)
Lemma sanctuary_message_cases env sanctuaryId content type alias st :
  (∃ reason,
     exec (on_sanctuary_message env sanctuaryId content type alias) st
     = with_out [Emit (ToSocket (Socket.id (socket st))) (sanctuary_error reason)] st)
  ∨ (∃ i ss,
       sanctuarySessions st !! i = Some ss
       ∧ live_query sanctuaryId (now env) ss
       ∧ faults env SanctuarySave = None
       ∧ exec (on_sanctuary_message env sanctuaryId content type alias) st
         = mkSt (socket st) (hostSessions st)
             (<[i := SanctuarySession.with_submissions
                       (SanctuarySession.submission_seq ss
                          ++ [new_submission env (socket st) content type alias]) ss]>
                (sanctuarySessions st))
             (out st ++
                [ Stored SanctuarySave;
                  Emit (ToRoom (sanctuary_room sanctuaryId) None)
                    (sanctuary_new_message
                       (new_submission env (socket st) content type alias));
                  Emit (ToRoom (sanctuary_host_room sanctuaryId) None)
                    (sanctuary_new_submission
                       (new_submission env (socket st) content type alias)
                       (length (SanctuarySession.submission_seq ss
                                  ++ [new_submission env (socket st) content type alias]))) ])).
Proof.
  destruct (faults env SanctuaryFindOne) as [message|] eqn:Hf.
  { left. eexists. apply (sanctuary_message_find_fault _ _ _ _ _ _ message Hf). }
  destruct (list_find (live_query sanctuaryId (now env)) (sanctuarySessions st))
    as [[i ss]|] eqn:Hfind.
  2:{ left. eexists. apply (sanctuary_message_not_found _ _ _ _ _ _ Hf Hfind). }
  destruct (faults env SanctuarySave) as [message|] eqn:Hs.
  { left. eexists. apply (sanctuary_message_save_fault _ _ _ _ _ _ i ss message Hf Hfind Hs). }
  right. exists i, ss. apply list_find_Some in Hfind as Hspec.
  destruct Hspec as (Hi & Hlive & _).
  split; [exact Hi|]. split; [exact Hlive|]. split; [reflexivity|].
  apply (sanctuary_message_stored _ _ _ _ _ _ i ss Hf Hfind Hs).
Qed.

Lemma sanctuary_message_socket env sanctuaryId content type alias st :
  socket (exec (on_sanctuary_message env sanctuaryId content type alias) st) = socket st.
Proof.
  destruct (sanctuary_message_cases env sanctuaryId content type alias st)
    as [[reason ->] | (i & ss & _ & _ & _ & ->)]; reflexivity.
Qed.

Lemma disconnect_socket env st : socket (exec (on_disconnect env) st) = socket st.
Proof. unfold exec. rewrite disconnect_run. reflexivity. Qed.

(** X5. No handler changes who a connection is: after [join_chat],
    [join_sanctuary], [join_audio_room], [join_sanctuary_host],
    [sanctuary_message], [sanctuary_message_read] or [disconnect], granted
    or refused, the connection has the id, user id, alias, avatar index,
    anonymity flag and origin it had. *)
Theorem handlers_keep_identity :
  ∀ (env : Env) (st : St) (roomId : string),
    (∀ userType,
       same_identity (socket st) (socket (exec (on_join_chat env roomId userType) st)))
    ∧ (∀ alias anon,
       same_identity (socket st)
         (socket (exec (on_join_sanctuary env roomId alias anon) st)))
    ∧ (∀ alias isHost isModerator,
       same_identity (socket st)
         (socket (exec (on_join_audio_room env roomId alias isHost isModerator) st)))
    ∧ (∀ hostToken,
       same_identity (socket st)
         (socket (exec (on_join_sanctuary_host env roomId hostToken) st)))
    ∧ (∀ content type alias,
       same_identity (socket st)
         (socket (exec (on_sanctuary_message env roomId content type alias) st)))
    ∧ (∀ messageId hostToken,
       same_identity (socket st)
         (socket (exec (on_sanctuary_message_read env roomId messageId hostToken) st)))
    ∧ same_identity (socket st) (socket (exec (on_disconnect env) st)).
Proof.
  intros env st roomId.
  split; [intros; unfold exec; rewrite join_chat_run; repeat split|].
  split; [intros; rewrite join_sanctuary_run; repeat split|].
  split; [intros; rewrite join_audio_room_run; repeat split|].
  split.
  { intros hostToken.
    destruct (join_host_socket env roomId hostToken st) as [-> | [token ->]];
      repeat split. }
  split; [intros; rewrite sanctuary_message_socket; apply same_identity_refl|].
  split; [intros; apply same_identity_refl|].
  rewrite disconnect_socket. apply same_identity_refl.
Qed.


(** ** The stores across handler runs *)

Lemma extended_by_refl m S : extended_by m S S.
Proof. repeat split. left. reflexivity. Qed.

Lemma Forall2_insert_right {A} (R : A → A → Prop) (l : list A) (i : nat) (x y : A) :
  (∀ z, R z z) → l !! i = Some x → R x y → Forall2 R l (<[i := y]> l).
Proof.
  intros Hrefl Hi Hxy. rewrite <- (list_insert_id l i x Hi) at 1.
  apply Forall2_insert; [|exact Hxy].
  apply Forall_Forall2_diag, Forall_forall. intros z _. apply Hrefl.
Qed.

(** A host join leaves the sanctuary documents as they are. *)
Lemma join_host_sanctuaries env sanctuaryId hostToken st :
  sanctuarySessions (exec (on_join_sanctuary_host env sanctuaryId hostToken) st)
  = sanctuarySessions st.
Proof.
  unfold_host_join.
  destruct (truthy hostToken);
    destruct (faults env HostFindOne), (faults env OwnerFindOne), (faults env HostSave),
      (faults env HostUpdateAccess), (faults env SanctuaryFindOne);
    cbn [missing negb andb fst snd socket hostSessions sanctuarySessions out];
    repeat (case_match; simplify_eq/=;
            cbn [missing negb andb fst snd socket hostSessions sanctuarySessions out] in *);
    reflexivity.
Qed.

(** X7. Submission sequences only grow at the end. Whatever a
    [sanctuary_message] run does, the store afterwards holds the same
    documents in the same positions with the same id, owner, metadata,
    expiry and active flag, and each sequence is either untouched or the
    old sequence followed by the one new submission; host sessions are
    untouched. A [join_sanctuary_host] run never changes a sanctuary
    document. *)
Theorem submissions_are_append_only :
  ∀ (env : Env) (st : St) (sanctuaryId content : string)
    (type alias hostToken : option string),
    Forall2 (extended_by (new_submission env (socket st) content type alias))
      (sanctuarySessions st)
      (sanctuarySessions (exec (on_sanctuary_message env sanctuaryId content type alias) st))
    ∧ hostSessions (exec (on_sanctuary_message env sanctuaryId content type alias) st)
      = hostSessions st
    ∧ sanctuarySessions (exec (on_join_sanctuary_host env sanctuaryId hostToken) st)
      = sanctuarySessions st.
Proof.
  intros env st sanctuaryId content type alias hostToken.
  split; [|split; [|apply join_host_sanctuaries]].
  - destruct (sanctuary_message_cases env sanctuaryId content type alias st)
      as [[reason ->] | (i & ss & Hi & _ & _ & ->)]; cbn [sanctuarySessions with_out].
    + apply Forall_Forall2_diag, Forall_forall. intros z _. apply extended_by_refl.
    + eapply Forall2_insert_right; [apply extended_by_refl | exact Hi |].
      repeat split. right. reflexivity.
  - destruct (sanctuary_message_cases env sanctuaryId content type alias st)
      as [[reason ->] | (i & ss & _ & _ & _ & ->)]; reflexivity.
Qed.

Lemma list_find_insert_hit {A} (P : A → Prop) `{∀ x, Decision (P x)}
  (l : list A) (i : nat) (x y : A) :
  list_find P l = Some (i, x) → P y → list_find P (<[i := y]> l) = Some (i, y).
Proof.
  intros Hfind Hy. apply list_find_Some in Hfind as (Hi & _ & Hfirst).
  apply list_find_Some. split; [|split].
  - apply list_lookup_insert_eq. eapply lookup_lt_Some; eassumption.
  - exact Hy.
  - intros j z Hj Hlt. rewrite list_lookup_insert_ne in Hj by lia.
    eapply Hfirst; eassumption.
Qed.

(** X8. A host who joins with a live token right after a submission was
    stored sees it: the [submissionsCount] of the snapshot is the
    [totalSubmissions] that the submission announced to the host channel
    (the old length plus one), and [lastActivity] is the time of that
    submission. The stored submission carries the submitter's own user
    id. *)
Theorem host_join_after_submission_counts_it :
  ∀ (env : Env) (submitter host : Socket.t) (hosts : list HostSession.t)
    (sanctuaries : list SanctuarySession.t) (S : SanctuarySession.t)
    (h : HostSession.t) (T content : string) (type alias : option string),
    S ∈ sanctuaries →
    SanctuarySession.isActive S = true →
    now env < SanctuarySession.expiresAt S →
    (∀ S', S' ∈ sanctuaries →
           SanctuarySession.id S' = SanctuarySession.id S → S' = S) →
    h ∈ hosts →
    HostSession.hostToken h = T →
    T ≠ "" →
    HostSession.sanctuaryId h = SanctuarySession.id S →
    HostSession.isActive h = true →
    now env < HostSession.expiresAt h →
    (∀ op, faults env op = None) →
    let st1 := exec (on_sanctuary_message env (SanctuarySession.id S) content type alias)
                 (mkSt submitter hosts sanctuaries []) in
    let st2 := exec (on_join_sanctuary_host env (SanctuarySession.id S) (Some T))
                 (mkSt host (hostSessions st1) (sanctuarySessions st1) []) in
    let n := Datatypes.S (length (SanctuarySession.submission_seq S)) in
    (∃ m, Emit (ToRoom (sanctuary_host_room (SanctuarySession.id S)) None)
            (sanctuary_new_submission m n) ∈ out st1
          ∧ Submission.participantId m = Socket.userId submitter
          ∧ Submission.timestamp m = now env)
    ∧ emitted (out st2)
      = [(ToSocket (Socket.id host),
          sanctuary_host_joined (SanctuarySession.id S) n (now env) T
            (SanctuarySession.topic S) (SanctuarySession.description S)
            (SanctuarySession.emoji S) (SanctuarySession.expiresAt S))].
Proof.
  intros env submitter host hosts sanctuaries S h T content type alias
    HS Hact Hexp Huniq Hh Htok Hne Hsid Hhact Hhexp Hfaults st1 st2 n.
  destruct (list_find_unique (live_query (SanctuarySession.id S) (now env))
              sanctuaries S HS) as (i & Hlive & _).
  { repeat split; assumption. }
  { intros S' HS' (Hid & _). apply Huniq; assumption. }
  pose proof (sanctuary_message_stored env (SanctuarySession.id S) content type alias
                (mkSt submitter hosts sanctuaries []) i S
                (Hfaults _) Hlive (Hfaults _)) as Hst1.
  cbv zeta in Hst1. cbn [socket hostSessions sanctuarySessions out app] in Hst1.
  fold st1 in Hst1.
  set (m := new_submission env submitter content type alias) in *.
  set (S1 := SanctuarySession.with_submissions
               (SanctuarySession.submission_seq S ++ [m]) S) in *.
  assert (length (SanctuarySession.submission_seq S ++ [m]) = n) as Hlen.
  { rewrite length_app. cbn [length]. subst n. lia. }
  rewrite Hlen in Hst1.
  split.
  - exists m. rewrite Hst1. cbn [out]. split; [|split; reflexivity].
    right. right. left.
  - destruct (list_find (host_query T (SanctuarySession.id S) (now env)) hosts)
      as [[k h0]|] eqn:Hfind.
    2:{ apply list_find_None in Hfind. rewrite Forall_forall in Hfind.
        destruct (Hfind h Hh). repeat split; assumption. }
    apply list_find_Some in Hfind as Hh0. destruct Hh0 as (_ & (Htok0 & _) & _).
    assert (list_find (live_query (SanctuarySession.id S) (now env))
              (<[i := S1]> sanctuaries) = Some (i, S1)) as Hlive1.
    { apply (list_find_insert_hit _ _ _ S); [exact Hlive|].
      repeat split; assumption. }
    subst st2. rewrite Hst1. cbn [hostSessions sanctuarySessions].
    rewrite (join_host_by_token env (SanctuarySession.id S) T
               (mkSt host hosts (<[i := S1]> sanctuaries) []) k h0 i S1 Hne
               (Hfaults _) (Hfaults _) (Hfaults _) Hfind Hlive1).
    cbn [out socket app emitted omap list_omap]. unfold host_snapshot.
    cbn [HostSession.hostToken HostSession.with_lastAccessed].
    rewrite Htok0.
    assert (SanctuarySession.submission_seq S1 = SanctuarySession.submission_seq S ++ [m])
      as Hseq by reflexivity.
    rewrite (lastActivity_last S1 _ m Hseq), Hseq, Hlen. reflexivity.
Qed.

Lemma host_join_after_submission_counts_it_witness :
  emitted (out (exec (on_join_sanctuary_host env_1000 "s1" (Some "T-live"))
                  (mkSt alice
                     (hostSessions
                        (exec (on_sanctuary_message env_1000 "s1" "hello" None None)
                           (mkSt bob [live_host_session] [busy_sanctuary] [])))
                     (sanctuarySessions
                        (exec (on_sanctuary_message env_1000 "s1" "hello" None None)
                           (mkSt bob [live_host_session] [busy_sanctuary] [])))
                     [])))
  = [(ToSocket "k1",
      sanctuary_host_joined "s1" 3 1000 "T-live" "topic" "about" "*" 2000)].
Proof.
  pose proof (host_join_after_submission_counts_it env_1000 bob alice
                [live_host_session] [busy_sanctuary] busy_sanctuary live_host_session
                "T-live" "hello" None None) as H.
  cbv zeta in H.
  destruct H as (_ & Hout); [ try reflexivity; try discriminate .. | ].
  - left.
  - intros S' HS' _. apply list_elem_of_singleton in HS'. exact HS'.
  - left.
  - exact Hout.
Defined.

(** ** Host sessions: minting, partial runs and the scope of a token *)

(** X9. The owner path mints on every run: two consecutive
    [join_sanctuary_host] requests without a token from the authenticated
    owner leave two active host sessions for the same sanctuary and
    owner in the store, one per request, each with the token generated
    for its request; nothing recognises the first when the second
    arrives. *)
Theorem owner_joins_mint_one_session_each :
  ∀ (env1 env2 : Env) (st : St) (S : SanctuarySession.t),
    Socket.isAnonymous (socket st) = false →
    S ∈ sanctuarySessions st →
    SanctuarySession.hostId S = Some (Socket.userId (socket st)) →
    SanctuarySession.isActive S = true →
    now env1 < SanctuarySession.expiresAt S →
    now env2 < SanctuarySession.expiresAt S →
    (∀ S', S' ∈ sanctuarySessions st →
           SanctuarySession.id S' = SanctuarySession.id S → S' = S) →
    (∀ op, faults env1 op = None) →
    (∀ op, faults env2 op = None) →
    let st1 := exec (on_join_sanctuary_host env1 (SanctuarySession.id S) None) st in
    let st2 := exec (on_join_sanctuary_host env2 (SanctuarySession.id S) None) st1 in
    ∃ m1 m2,
      hostSessions st2 = hostSessions st ++ [m1; m2]
      ∧ HostSession.hostToken m1 = nonce env1
      ∧ HostSession.hostToken m2 = nonce env2
      ∧ Forall (λ m, HostSession.sanctuaryId m = SanctuarySession.id S
                     ∧ HostSession.hostId m = Some (Socket.userId (socket st))
                     ∧ HostSession.expiresAt m = SanctuarySession.expiresAt S
                     ∧ HostSession.isActive m = true) [m1; m2].
Proof.
  intros env1 env2 st S Hauth HS Hown Hact Hexp1 Hexp2 Huniq Hf1 Hf2 st1 st2.
  destruct (list_find_unique
              (owner_query (SanctuarySession.id S) (Socket.userId (socket st)) (now env1))
              (sanctuarySessions st) S HS) as (j1 & Hfind1 & _).
  { repeat split; assumption. }
  { intros S' HS' (Hid & _). apply Huniq; assumption. }
  destruct (list_find_unique
              (owner_query (SanctuarySession.id S) (Socket.userId (socket st)) (now env2))
              (sanctuarySessions st) S HS) as (j2 & Hfind2 & _).
  { repeat split; assumption. }
  { intros S' HS' (Hid & _). apply Huniq; assumption. }
  pose proof (join_host_by_owner env1 (SanctuarySession.id S) st j1 S Hauth
                (Hf1 _) (Hf1 _) (Hf1 _) Hfind1) as Hst1.
  cbv zeta in Hst1. fold st1 in Hst1.
  assert (Socket.isAnonymous (socket st1) = false) as Hauth1 by (rewrite Hst1; exact Hauth).
  assert (Socket.userId (socket st1) = Socket.userId (socket st)) as Hid1
    by (rewrite Hst1; reflexivity).
  assert (sanctuarySessions st1 = sanctuarySessions st) as Hss1
    by (rewrite Hst1; reflexivity).
  rewrite <- Hid1, <- Hss1 in Hfind2.
  pose proof (join_host_by_owner env2 (SanctuarySession.id S) st1 j2 S Hauth1
                (Hf2 _) (Hf2 _) (Hf2 _) Hfind2) as Hst2.
  cbv zeta in Hst2. fold st2 in Hst2.
  eexists _, _. rewrite Hst2. cbn [hostSessions]. rewrite Hst1 at 1.
  cbn [hostSessions]. rewrite <- app_assoc. split; [reflexivity|].
  split; [reflexivity|]. split; [reflexivity|].
  repeat constructor. cbn. rewrite Hid1. reflexivity.
Qed.

Lemma owner_joins_mint_one_session_each_witness :
  ∃ m1 m2,
    hostSessions
      (exec (on_join_sanctuary_host (mkEnv 1100 no_faults "s3c0nd") "s1" None)
         (exec (on_join_sanctuary_host env_1000 "s1" None)
            (mkSt alice [] [fresh_sanctuary] [])))
    = [m1; m2]
    ∧ HostSession.hostToken m1 = "n4n0"
    ∧ HostSession.hostToken m2 = "s3c0nd"
    ∧ Forall (λ m, HostSession.sanctuaryId m = "s1"
                   ∧ HostSession.hostId m = Some "u1"
                   ∧ HostSession.expiresAt m = 2000
                   ∧ HostSession.isActive m = true) [m1; m2].
Proof.
  apply (owner_joins_mint_one_session_each env_1000 (mkEnv 1100 no_faults "s3c0nd")
           (mkSt alice [] [fresh_sanctuary] []) fresh_sanctuary);
    try reflexivity.
  - left.
  - intros S' HS' _. apply list_elem_of_singleton in HS'. exact HS'.
Defined.

(** X10. A host join can fail after it has written. When the owner path
    has minted and saved a session and [updateAccess] then throws, the
    caller is refused with the thrown message as details and is not
    joined to the host channel, yet the minted session stays in the
    store. *)
Theorem minted_session_survives_failed_access_update :
  ∀ (env : Env) (st : St) (S : SanctuarySession.t) (message : string),
    Socket.isAnonymous (socket st) = false →
    S ∈ sanctuarySessions st →
    SanctuarySession.hostId S = Some (Socket.userId (socket st)) →
    SanctuarySession.isActive S = true →
    now env < SanctuarySession.expiresAt S →
    (∀ S', S' ∈ sanctuarySessions st →
           SanctuarySession.id S' = SanctuarySession.id S → S' = S) →
    faults env OwnerFindOne = None →
    faults env HostSave = None →
    faults env HostUpdateAccess = Some message →
    let st' := exec (on_join_sanctuary_host env (SanctuarySession.id S) None) st in
    socket st' = socket st
    ∧ hostSessions st'
      = hostSessions st ++
          [HostSession_new env (SanctuarySession.id S) (nonce env)
             (Socket.userId (socket st)) (Socket.address (socket st))
             (Socket.user_agent (socket st)) (SanctuarySession.expiresAt S)]
    ∧ out st'
      = out st ++
          [ Stored HostSave;
            Emit (ToSocket (Socket.id (socket st)))
              (sanctuary_host_auth_failed (SanctuarySession.id S)
                 "Not authorized as host for this sanctuary" message) ].
Proof.
  intros env st S message Hauth HS Hown Hact Hexp Huniq Hf1 Hf2 Hf3 st'. subst st'.
  destruct (list_find_unique
              (owner_query (SanctuarySession.id S) (Socket.userId (socket st)) (now env))
              (sanctuarySessions st) S HS) as (j & Hfind & _).
  { repeat split; assumption. }
  { intros S' HS' (Hid & _). apply Huniq; assumption. }
  unfold_host_join.
  cbn [truthy missing negb andb fst snd]. rewrite Hauth, Hf1.
  cbn [negb andb fst snd socket hostSessions sanctuarySessions out]. rewrite Hfind, Hf2.
  cbn [fst snd socket hostSessions sanctuarySessions out]. rewrite Hf3.
  cbn [fst snd socket hostSessions sanctuarySessions out].
  rewrite <- ?app_assoc. repeat split.
Qed.

Lemma minted_session_survives_failed_access_update_witness :
  let st' := exec (on_join_sanctuary_host
                     (mkEnv 1000 (λ op, match op with
                                        | HostUpdateAccess => Some "write timed out"
                                        | _ => None
                                        end) "n4n0")
                     "s1" None)
               (mkSt alice [] [fresh_sanctuary] []) in
  socket st' = alice
  ∧ hostSessions st'
    = [HostSession.mk "s1" "n4n0" (Some "u1") "10.0.0.1" None 2000 1000 true]
  ∧ out st'
    = [ Stored HostSave;
        Emit (ToSocket "k1")
          (sanctuary_host_auth_failed "s1" "Not authorized as host for this sanctuary"
             "write timed out") ].
Proof.
  apply (minted_session_survives_failed_access_update
           (mkEnv 1000 (λ op, match op with
                              | HostUpdateAccess => Some "write timed out"
                              | _ => None
                              end) "n4n0")
           (mkSt alice [] [fresh_sanctuary] []) fresh_sanctuary "write timed out");
    try reflexivity.
  - left.
  - intros S' HS' _. apply list_elem_of_singleton in HS'. exact HS'.
Defined.

(** X11. A live token for a sanctuary that is no longer live is refused
    with the details "Sanctuary session not found or expired", and the
    connection is not joined; but the token was accepted first, so the
    matching host session has its last access set to the current time. *)
Theorem live_token_for_dead_sanctuary_is_refused_after_access_update :
  ∀ (env : Env) (st : St) (h : HostSession.t) (sanctuaryId : string),
    h ∈ hostSessions st →
    HostSession.hostToken h ≠ "" →
    HostSession.sanctuaryId h = sanctuaryId →
    HostSession.isActive h = true →
    now env < HostSession.expiresAt h →
    (∀ s, s ∈ sanctuarySessions st → ¬ live_query sanctuaryId (now env) s) →
    (∀ op, faults env op = None) →
    let st' := exec (on_join_sanctuary_host env sanctuaryId
                       (Some (HostSession.hostToken h))) st in
    socket st' = socket st
    ∧ sanctuarySessions st' = sanctuarySessions st
    ∧ out st'
      = out st ++
          [ Stored HostUpdateAccess;
            Emit (ToSocket (Socket.id (socket st)))
              (sanctuary_host_auth_failed sanctuaryId
                 "Not authorized as host for this sanctuary"
                 "Sanctuary session not found or expired") ]
    ∧ ∃ i h0,
        hostSessions st !! i = Some h0
        ∧ host_query (HostSession.hostToken h) sanctuaryId (now env) h0
        ∧ hostSessions st'
          = <[i := HostSession.with_lastAccessed (now env) h0]> (hostSessions st).
Proof.
  intros env st h sanctuaryId Hh Hne Hsid Hact Hexp Hdead Hf st'. subst st'.
  destruct (list_find (host_query (HostSession.hostToken h) sanctuaryId (now env))
              (hostSessions st)) as [[i h0]|] eqn:Hfind.
  2:{ apply list_find_None in Hfind. rewrite Forall_forall in Hfind.
      destruct (Hfind h Hh). repeat split; assumption. }
  apply list_find_Some in Hfind as Hspec. destruct Hspec as (Hi & Hq & _).
  pose proof (list_find_none (live_query sanctuaryId (now env)) (sanctuarySessions st)
                Hdead) as Hnone.
  unfold_host_join.
  rewrite (truthy_Some_true _ Hne), (Hf HostFindOne). cbn [from_option id]. rewrite Hfind.
  cbn [missing negb andb fst snd]. rewrite (Hf HostUpdateAccess), (Hf SanctuaryFindOne).
  cbn [fst snd socket hostSessions sanctuarySessions out]. rewrite Hnone.
  cbn [fst snd socket hostSessions sanctuarySessions out].
  rewrite <- ?app_assoc.
  split; [reflexivity|]. split; [reflexivity|]. split; [reflexivity|].
  exists i, h0. repeat split; try assumption; apply Hq.
Qed.

Lemma live_token_for_dead_sanctuary_is_refused_after_access_update_witness :
  let st' := exec (on_join_sanctuary_host env_1000 "s1" (Some "T-live"))
               (mkSt bob [live_host_session]
                  [SanctuarySession.mk "s1" (Some "u1") "topic" "about" "*" 5 2000
                     false (Some [])] []) in
  socket st' = bob
  ∧ out st'
    = [ Stored HostUpdateAccess;
        Emit (ToSocket "k2")
          (sanctuary_host_auth_failed "s1" "Not authorized as host for this sanctuary"
             "Sanctuary session not found or expired") ].
Proof.
  cbv zeta.
  pose proof (live_token_for_dead_sanctuary_is_refused_after_access_update env_1000
                (mkSt bob [live_host_session]
                   [SanctuarySession.mk "s1" (Some "u1") "topic" "about" "*" 5 2000
                      false (Some [])] [])
                live_host_session "s1") as H.
  cbv zeta in H.
  destruct H as (Hsock & _ & Hout & _); [ try reflexivity; try discriminate .. | ].
  - left.
  - intros s Hs (_ & Hact & _). apply list_elem_of_singleton in Hs as ->. discriminate.
  - split; [exact Hsock | exact Hout].
Defined.

(** X12. A token opens only its own sanctuary. With tokens identifying
    host sessions, a caller who is anonymous, or owns no live sanctuary
    with the requested id, and presents the token of a session that
    belongs to another sanctuary is refused, however live that session
    is, and nothing but the trace changes. *)
Theorem token_of_another_sanctuary_is_refused :
  ∀ (env : Env) (st : St) (h : HostSession.t) (sanctuaryId : string),
    h ∈ hostSessions st →
    HostSession.sanctuaryId h ≠ sanctuaryId →
    (∀ h', h' ∈ hostSessions st →
           HostSession.hostToken h' = HostSession.hostToken h → h' = h) →
    (Socket.isAnonymous (socket st) = true
     ∨ ∀ s, s ∈ sanctuarySessions st →
            ¬ owner_query sanctuaryId (Socket.userId (socket st)) (now env) s) →
    let st' := exec (on_join_sanctuary_host env sanctuaryId
                       (Some (HostSession.hostToken h))) st in
    socket st' = socket st
    ∧ hostSessions st' = hostSessions st
    ∧ sanctuarySessions st' = sanctuarySessions st
    ∧ ∃ details,
        out st' = out st ++
          [Emit (ToSocket (Socket.id (socket st)))
             (sanctuary_host_auth_failed sanctuaryId
                "Not authorized as host for this sanctuary" details)].
Proof.
  intros env st h sanctuaryId Hin Hother Huniq Hcaller st'. subst st'.
  destruct (join_host_refused env sanctuaryId (Some (HostSession.hostToken h)) st)
    as [details ->].
  - intros _ _. apply list_find_none. intros h' Hh' (Htok & Hsid & _).
    cbn in Htok. rewrite (Huniq h' Hh' Htok) in Hsid. contradiction.
  - intros Hauth _. destruct Hcaller as [Hanon | Hnot]; [congruence|].
    apply list_find_none. exact Hnot.
  - repeat split. exists details. reflexivity.
Qed.

Lemma token_of_another_sanctuary_is_refused_witness :
  ∃ details,
    out (exec (on_join_sanctuary_host env_1000 "sid-9" (Some "T-live"))
           (mkSt bob [live_host_session] [fresh_sanctuary] []))
    = [Emit (ToSocket "k2")
         (sanctuary_host_auth_failed "sid-9" "Not authorized as host for this sanctuary"
            details)].
Proof.
  pose proof (token_of_another_sanctuary_is_refused env_1000
                (mkSt bob [live_host_session] [fresh_sanctuary] [])
                live_host_session "sid-9") as H.
  cbv zeta in H. destruct H as (_ & _ & _ & details & Hout).
  - left.
  - discriminate.
  - intros h' Hh' _. apply list_elem_of_singleton in Hh'. exact Hh'.
  - left. reflexivity.
  - exists details. exact Hout.
Defined.

(** ** Room names *)

(** X13. Room names keep rooms apart, with one overlap. Within a kind,
    different ids give different rooms; a chat room or an audio room is
    never a room of another kind; but the public room of a sanctuary is
    the host channel of another sanctuary exactly when its id is "host_"
    followed by the other id. *)
Theorem room_names_separate_rooms_except_host_prefix :
  ∀ (a b : string),
    (chat_room a = chat_room b → a = b)
    ∧ (sanctuary_room a = sanctuary_room b → a = b)
    ∧ (sanctuary_host_room a = sanctuary_host_room b → a = b)
    ∧ (audio_room a = audio_room b → a = b)
    ∧ chat_room a ≠ sanctuary_room b
    ∧ chat_room a ≠ sanctuary_host_room b
    ∧ chat_room a ≠ audio_room b
    ∧ audio_room a ≠ sanctuary_room b
    ∧ audio_room a ≠ sanctuary_host_room b
    ∧ (sanctuary_room a = sanctuary_host_room b ↔ a = "host_" +:+ b).
Proof.
  intros a b. unfold chat_room, sanctuary_room, sanctuary_host_room, audio_room.
  repeat split; intros H; by simplify_eq/=.
Qed.

(** X14. [join_sanctuary] checks nothing about the id it is given, so the
    overlap can be entered: a connection that joins the public sanctuary
    "host_" followed by x is a member of the host channel of sanctuary x,
    and receives every [sanctuary_new_submission] that a
    [sanctuary_message] run for x emits for the hosts. *)
Theorem public_join_reaches_host_channel :
  ∀ (env env' : Env) (st : St) (x content : string) (alias type alias' : option string)
    (anon : bool) (submitter : Socket.t) (hosts : list HostSession.t)
    (sanctuaries : list SanctuarySession.t),
    let s := socket (exec (on_join_sanctuary env ("host_" +:+ x) alias anon) st) in
    Socket.currentSanctuary s = Some ("host_" +:+ x)
    ∧ Socket.currentSanctuaryHost s = Socket.currentSanctuaryHost (socket st)
    ∧ sanctuary_host_room x ∈ Socket.rooms s
    ∧ ∀ to m n,
        Emit to (sanctuary_new_submission m n)
        ∈ out (exec (on_sanctuary_message env' x content type alias')
                 (mkSt submitter hosts sanctuaries [])) →
        receives s to.
Proof.
  intros env env' st x content alias type alias' anon submitter hosts sanctuaries s.
  assert (sanctuary_host_room x ∈ Socket.rooms s) as Hmember.
  { subst s. rewrite join_sanctuary_run.
    cbn [Socket.rooms Socket.set_currentSanctuary Socket.join].
    apply elem_of_union_l, elem_of_singleton. reflexivity. }
  split; [reflexivity|]. split; [reflexivity|]. split; [exact Hmember|].
  intros to m n Hin.
  destruct (sanctuary_message_cases env' x content type alias'
              (mkSt submitter hosts sanctuaries []))
    as [[reason Hrun] | (i & ss & _ & _ & _ & Hrun)];
    rewrite Hrun in Hin; cbn [out with_out app] in Hin.
  - apply list_elem_of_singleton in Hin. discriminate.
  - apply elem_of_cons in Hin as [Hin | Hin]; [discriminate|].
    apply elem_of_cons in Hin as [Hin | Hin]; [discriminate|].
    apply list_elem_of_singleton in Hin. injection Hin as -> _ _.
    split; [exact Hmember | discriminate].
Qed.

(** ** Disconnect after a change of room *)

(** X15. Only the room of the current reference hears of a departure. A
    connection that joined chat room A and then chat room B is still a
    member of A when it disconnects, but the disconnect handler emits
    [user_left] to B alone: nothing is addressed to A. *)
Theorem disconnect_notifies_only_the_last_chat_room :
  ∀ (env : Env) (st : St) (a b : string) (userType : option string),
    a ≠ b →
    b ≠ "" →
    let s := socket (exec (on_join_chat env a userType ;;; on_join_chat env b userType) st) in
    let tr := out (exec (on_disconnect env)
                     (mkSt s (hostSessions st) (sanctuarySessions st) [])) in
    chat_room a ∈ Socket.rooms s
    ∧ to_room (chat_room a) tr = []
    ∧ to_room (chat_room b) tr
      = [user_left (Socket.userId (socket st)) (Socket.userAlias (socket st)) (now env)].
Proof.
  intros env st a b userType Hab Hb s tr.
  assert (Socket.currentChatSession s = Some b) as Hcur by reflexivity.
  assert (Socket.rooms s = {[chat_room b]} ∪ ({[chat_room a]} ∪ Socket.rooms (socket st)))
    as Hrooms by reflexivity.
  assert (Socket.currentSanctuary s = Socket.currentSanctuary (socket st)) as Hsan
    by reflexivity.
  assert (Socket.currentAudioRoom s = Socket.currentAudioRoom (socket st)) as Haud
    by reflexivity.
  assert (Socket.userId s = Socket.userId (socket st)) as Hid by reflexivity.
  assert (Socket.userAlias s = Socket.userAlias (socket st)) as Hal by reflexivity.
  assert (tr = left_chat env s ++ left_sanctuary env s ++ left_audio env s) as ->.
  { subst tr. unfold exec. rewrite disconnect_run. reflexivity. }
  clearbody s.
  split.
  { rewrite Hrooms. apply elem_of_union_r, elem_of_union_l, elem_of_singleton.
    reflexivity. }
  unfold left_chat, left_sanctuary, left_audio.
  rewrite Hcur, (truthy_Some_true b Hb), Hid, Hal. cbn [from_option id].
  rewrite !to_room_app. cbn [to_room omap list_omap].
  assert (chat_room b ≠ chat_room a) as Hne.
  { unfold chat_room. intros Heq. apply Hab. by simplify_eq/=. }
  rewrite (decide_False (P := chat_room b = chat_room a)) by exact Hne.
  rewrite (decide_True (P := chat_room b = chat_room b)) by reflexivity.
  split.
  - destruct (truthy (Socket.currentSanctuary s)), (truthy (Socket.currentAudioRoom s));
      cbn [to_room omap list_omap app];
      repeat (rewrite decide_False by (unfold chat_room, sanctuary_room, audio_room;
                                       simpl; congruence));
      reflexivity.
  - destruct (truthy (Socket.currentSanctuary s)), (truthy (Socket.currentAudioRoom s));
      cbn [to_room omap list_omap app];
      repeat (rewrite decide_False by (unfold chat_room, sanctuary_room, audio_room;
                                       simpl; congruence));
      reflexivity.
Qed.

Lemma disconnect_notifies_only_the_last_chat_room_witness :
  let s := socket (exec (on_join_chat env_1000 "A" None ;;; on_join_chat env_1000 "B" None)
                     (mkSt alice [] [] [])) in
  let tr := out (exec (on_disconnect env_1000) (mkSt s [] [] [])) in
  chat_room "A" ∈ Socket.rooms s
  ∧ to_room (chat_room "A") tr = []
  ∧ to_room (chat_room "B") tr = [user_left "u1" (Some "alice") 1000].
Proof.
  apply (disconnect_notifies_only_the_last_chat_room env_1000 (mkSt alice [] [] [])
           "A" "B" None); discriminate.
Defined.

(** * Properties of the host-session hook *)

(** ** Cookie strings *)

Lemma append_nil_l (t : string) : "" +:+ t = t.
Proof. reflexivity. Qed.

Lemma append_cons_l (c : ascii) (s t : string) : String c s +:+ t = String c (s +:+ t).
Proof. reflexivity. Qed.

Lemma append_assoc_l (s t u : string) : (s +:+ t) +:+ u = s +:+ (t +:+ u).
Proof.
  induction s as [|c s IH]; [reflexivity|].
  rewrite !append_cons_l, IH. reflexivity.
Qed.

Lemma has_char_app a (s t : string) :
  has_char a (s +:+ t) = has_char a s || has_char a t.
Proof.
  induction s as [|c s IH]; [reflexivity|].
  rewrite append_cons_l. cbn [has_char]. rewrite IH. apply orb_assoc.
Qed.

Lemma split_on_no_sep sep (a : string) :
  has_char sep a = false → split_on sep a = [a].
Proof.
  induction a as [|c a IH]; [reflexivity|]. cbn [has_char split_on].
  intros H. apply orb_false_elim in H as [Hc Ha]. rewrite Hc, (IH Ha). reflexivity.
Qed.

Lemma split_on_app sep (a rest : string) :
  has_char sep a = false →
  split_on sep (a +:+ String sep rest) = a :: split_on sep rest.
Proof.
  induction a as [|c a IH].
  - intros _. rewrite append_nil_l. cbn [split_on]. rewrite Ascii.eqb_refl. reflexivity.
  - rewrite append_cons_l. cbn [has_char split_on].
    intros H. apply orb_false_elim in H as [Hc Ha]. rewrite Hc, (IH Ha). reflexivity.
Qed.

Lemma prefix_app (name v : string) : String.prefix name (name +:+ v) = true.
Proof.
  induction name as [|c name IH].
  - destruct v; reflexivity.
  - rewrite append_cons_l. cbn [String.prefix].
    destruct (ascii_dec c c); [exact IH | contradiction].
Qed.

Lemma substring_all (v : string) : String.substring 0 (String.length v) v = v.
Proof. induction v as [|c v IH]; [reflexivity|]. cbn. rewrite IH. reflexivity. Qed.

Lemma substring_after_prefix (name v : string) :
  String.substring (String.length name)
    (String.length (name +:+ v) - String.length name) (name +:+ v) = v.
Proof.
  induction name as [|c name IH].
  - rewrite append_nil_l. cbn [String.length]. rewrite Nat.sub_0_r. apply substring_all.
  - rewrite append_cons_l. cbn [String.length String.substring Nat.sub]. exact IH.
Qed.

(** Names without '=' that differ do not pass for one another. *)
Lemma prefix_other_name (key k v : string) :
  has_char "=" key = false → has_char "=" k = false → k ≠ key →
  String.prefix (key +:+ "=") (k +:+ "=" +:+ v) = false.
Proof.
  revert k. induction key as [|c key IH]; intros k Hkey Hk Hne.
  - destruct k as [|d k]; [contradiction|].
    rewrite append_nil_l, !append_cons_l. cbn [String.prefix]. cbn [has_char] in Hk.
    apply orb_false_elim in Hk as [Hd _].
    destruct (ascii_dec "=" d) as [<-|]; [discriminate | reflexivity].
  - cbn [has_char] in Hkey. apply orb_false_elim in Hkey as [Hc Hkey].
    destruct k as [|d k]; rewrite ?append_nil_l, !append_cons_l; cbn [String.prefix].
    + destruct (ascii_dec c "=") as [->|]; [discriminate | reflexivity].
    + destruct (ascii_dec c d) as [<-|]; [|reflexivity].
      cbn [has_char] in Hk. apply orb_false_elim in Hk as [_ Hk].
      apply IH; [assumption | assumption | congruence].
Qed.

Lemma cookie_pair_no_semicolon (e : string * string) :
  cookie_ok e → has_char ";" (cookie_pair e) = false.
Proof.
  intros (Hk & _ & _ & Hv). unfold cookie_pair.
  rewrite !has_char_app, Hk, Hv. reflexivity.
Qed.

Lemma cookie_pair_strip (e : string * string) :
  cookie_ok e → strip_leading_spaces (cookie_pair e) = cookie_pair e.
Proof.
  intros (_ & _ & Hsp & _). unfold cookie_pair. destruct e as [[|c k] v]; [reflexivity|].
  cbn [fst snd]. cbn [fst String.prefix] in Hsp.
  rewrite append_cons_l. cbn [strip_leading_spaces].
  destruct (Ascii.eqb_spec c " ") as [->|]; [|reflexivity].
  destruct (ascii_dec " " " "); [|contradiction]. destruct k; discriminate.
Qed.

Lemma split_render_cookies (e : string * string) (rest : list (string * string)) :
  Forall cookie_ok (e :: rest) →
  split_on ";" (render_cookies (e :: rest))
  = cookie_pair e :: map (λ e', String " " (cookie_pair e')) rest.
Proof.
  revert e. induction rest as [|e2 rest IH]; intros e Hok.
  - apply Forall_cons in Hok as [He _]. cbn [render_cookies map].
    apply split_on_no_sep, cookie_pair_no_semicolon, He.
  - apply Forall_cons in Hok as [He Hrest].
    change (render_cookies (e :: e2 :: rest))
      with (cookie_pair e +:+ String ";" (String " " (render_cookies (e2 :: rest)))).
    rewrite split_on_app by (apply cookie_pair_no_semicolon, He).
    cbn [split_on map]. rewrite (IH e2 Hrest). reflexivity.
Qed.

Lemma first_cookie_step (key : string) (e : string * string) (c : string)
  (rest : list string) :
  cookie_ok e → has_char "=" key = false →
  strip_leading_spaces c = cookie_pair e →
  first_cookie (key +:+ "=") (c :: rest)
  = if String.eqb e.1 key then Some e.2 else first_cookie (key +:+ "=") rest.
Proof.
  intros Hok Hkey Hc. cbn [first_cookie]. rewrite Hc.
  destruct (String.eqb_spec e.1 key) as [Heq | Hne].
  - unfold cookie_pair. rewrite Heq, <- (append_assoc_l key "=" e.2).
    rewrite prefix_app, substring_after_prefix. reflexivity.
  - unfold cookie_pair. destruct Hok as (_ & Hk & _ & _).
    rewrite (prefix_other_name key e.1 e.2 Hkey Hk Hne). reflexivity.
Qed.

Lemma first_cookie_spaced (key : string) (jar : list (string * string)) :
  Forall cookie_ok jar → has_char "=" key = false →
  first_cookie (key +:+ "=") (map (λ e', String " " (cookie_pair e')) jar)
  = jar_lookup key jar.
Proof.
  intros Hok Hkey. induction jar as [|e jar IH]; [reflexivity|].
  apply Forall_cons in Hok as [He Hjar]. cbn [map jar_lookup].
  rewrite (first_cookie_step key e _ _ He Hkey).
  - rewrite (IH Hjar). reflexivity.
  - cbn [strip_leading_spaces]. rewrite Ascii.eqb_refl. apply cookie_pair_strip, He.
Qed.

Lemma first_cookie_render (key : string) (jar : list (string * string)) :
  Forall cookie_ok jar → has_char "=" key = false → key ≠ "" →
  first_cookie (key +:+ "=") (split_on ";" (render_cookies jar)) = jar_lookup key jar.
Proof.
  intros Hok Hkey Hne. destruct jar as [|e jar].
  - cbn [render_cookies split_on first_cookie strip_leading_spaces jar_lookup].
    destruct key; [contradiction | reflexivity].
  - rewrite (split_render_cookies e jar Hok).
    apply Forall_cons in Hok as [He Hjar].
    rewrite (first_cookie_step key e _ _ He Hkey (cookie_pair_strip e He)).
    rewrite (first_cookie_spaced key jar Hjar Hkey). reflexivity.
Qed.

Lemma host_key_no_equals (sanctuaryId : string) :
  has_char "=" sanctuaryId = false → has_char "=" (host_key sanctuaryId) = false.
Proof. intros H. unfold host_key. rewrite has_char_app, H. reflexivity. Qed.

Lemma host_key_inj (a b : string) : host_key a = host_key b → a = b.
Proof. unfold host_key. intros H. by simplify_eq/=. Qed.

(** X16. The cookie fallback is a lookup by name. When the cookie string
    lists cookies whose names have no ';', no '=' and no leading space
    and whose values have no ';', separated by "; ", decodes to itself,
    and the sanctuary id has no '=', [getTokenFromCookie] returns the
    value of the first cookie named [sanctuary-host-<sanctuaryId>], and
    [null] when there is none (an empty cookie string included). A
    cookie whose name merely starts with that name is not taken for it. *)
Theorem cookie_fallback_is_lookup_by_name :
  ∀ (decodeURIComponent : string → option string) (sanctuaryId : string)
    (b : Browser.t) (jar : list (string * string)),
    Browser.cookie b = render_cookies jar →
    Forall cookie_ok jar →
    has_char "=" sanctuaryId = false →
    decodeURIComponent (render_cookies jar) = Some (render_cookies jar) →
    getTokenFromCookie decodeURIComponent sanctuaryId b
    = Some (jar_lookup (host_key sanctuaryId) jar).
Proof.
  intros decode sanctuaryId b jar Hcookie Hok Hsid Hdecode.
  unfold getTokenFromCookie. rewrite Hcookie, Hdecode. f_equal.
  apply first_cookie_render; [exact Hok | apply host_key_no_equals, Hsid |].
  unfold host_key. discriminate.
Qed.

Lemma cookie_fallback_is_lookup_by_name_witness :
  getTokenFromCookie Some "s1"
    (Browser.mk None ∅ ∅ "theme=dark; sanctuary-host-s10=T-other; sanctuary-host-s1=T-live" [])
  = Some (Some "T-live").
Proof.
  apply (cookie_fallback_is_lookup_by_name Some "s1"
           (Browser.mk None ∅ ∅
              "theme=dark; sanctuary-host-s10=T-other; sanctuary-host-s1=T-live" [])
           [("theme", "dark"); ("sanctuary-host-s10", "T-other");
            ("sanctuary-host-s1", "T-live")]).
  - reflexivity.
  - repeat constructor.
  - reflexivity.
  - reflexivity.
Defined.

(** ** Token storage *)

(** X17. A stored token is found again. After [storeHostToken] for a
    sanctuary, if the write to [localStorage] did not throw, the token is
    not empty and the URL carries no token, [getHostToken] for that
    sanctuary returns the stored token; a token in the URL always wins;
    the tokens of every other sanctuary are read as before; and if the
    first write throws, nothing at all is written. *)
Theorem stored_token_is_found_again :
  ∀ (throws : StorageOp → bool) (sanctuaryId token : string) (b : Browser.t),
    (throws LocalSetItem = false → token ≠ "" →
     truthy (Browser.url_hostToken b) = false →
     getHostToken sanctuaryId (storeHostToken throws sanctuaryId token b) = Some token)
    ∧ (truthy (Browser.url_hostToken b) = true →
       getHostToken sanctuaryId (storeHostToken throws sanctuaryId token b)
       = Browser.url_hostToken b)
    ∧ (∀ other, other ≠ sanctuaryId →
         getHostToken other (storeHostToken throws sanctuaryId token b)
         = getHostToken other b)
    ∧ (throws LocalSetItem = true → storeHostToken throws sanctuaryId token b = b).
Proof.
  intros throws sanctuaryId token b.
  assert (Browser.url_hostToken (storeHostToken throws sanctuaryId token b)
          = Browser.url_hostToken b) as Hurl.
  { unfold storeHostToken.
    destruct (throws LocalSetItem), (throws SessionSetItem), (throws CookieAssign);
      reflexivity. }
  split; [|split; [|split]].
  - intros Hlocal Hne Hno. unfold getHostToken. rewrite Hurl.
    assert (Browser.localStorage (storeHostToken throws sanctuaryId token b)
              !! host_key sanctuaryId = Some token) as ->.
    { unfold storeHostToken. rewrite Hlocal.
      destruct (throws SessionSetItem), (throws CookieAssign);
        cbn [Browser.localStorage]; apply lookup_insert_eq. }
    unfold or_else at 2. rewrite Hno.
    unfold or_else. rewrite (truthy_Some_true token Hne). reflexivity.
  - intros Hyes. unfold getHostToken. rewrite Hurl.
    unfold or_else at 2. rewrite Hyes. unfold or_else. rewrite Hyes. reflexivity.
  - intros other Hother.
    assert (host_key sanctuaryId ≠ host_key other) as Hkey.
    { intros Heq. apply Hother. symmetry. apply host_key_inj, Heq. }
    unfold getHostToken. rewrite Hurl. unfold storeHostToken.
    destruct (throws LocalSetItem), (throws SessionSetItem), (throws CookieAssign);
      cbn [Browser.localStorage Browser.sessionStorage];
      rewrite ?(lookup_insert_ne _ _ _ _ Hkey); reflexivity.
  - intros Hthrow. unfold storeHostToken. rewrite Hthrow. reflexivity.
Qed.

(** ** Expiry as the hook shows it *)

(** X18. The hook's two views of expiry agree with each other and with
    the server. With a session, [isExpired] holds exactly when
    [getTimeRemaining] is 0, and otherwise the time remaining is the
    positive distance to the expiry; the time remaining is never
    negative; without a session the hook reports not expired and 0. A
    host session with the expiry that the hook shows as expired is not
    matched by the server's token lookup at the same instant. *)
Theorem expiry_views_agree :
  ∀ (now : Z) (hostSession : option HostView.t),
    (isExpired now hostSession = true
     ↔ is_Some hostSession ∧ getTimeRemaining now hostSession = 0)
    ∧ (0 ≤ getTimeRemaining now hostSession)%Z
    ∧ (∀ h, hostSession = Some h → isExpired now hostSession = false →
            getTimeRemaining now hostSession = HostView.expiresAt h - now
            ∧ (0 < getTimeRemaining now hostSession)%Z)
    ∧ (∀ h token sanctuaryId (stored : HostSession.t),
         hostSession = Some h →
         HostSession.expiresAt stored = HostView.expiresAt h →
         isExpired now hostSession = true →
         ¬ host_query token sanctuaryId now stored).
Proof.
  intros now [h|]; cbn [isExpired getTimeRemaining].
  - split; [|split; [lia|split]].
    + rewrite bool_decide_eq_true. split.
      * intros Hle. split; [eauto | lia].
      * intros [_ Hzero]. lia.
    + intros h' [= <-]. rewrite bool_decide_eq_false. lia.
    + intros h' token sanctuaryId stored [= <-] Hexp.
      rewrite bool_decide_eq_true. intros Hle (_ & _ & _ & Hlive). lia.
  - split; [|split; [lia|split]].
    + split; [discriminate|]. intros [[x Hx] _]. discriminate.
    + intros h' [=].
    + intros h' token sanctuaryId stored [=].
Qed.

(** ** Initialisation of the hook *)

(** X19. Without a token the hook asks nobody. When neither the URL nor
    the two storages nor the cookie yields a non-empty token,
    [initializeSession] ends with the error "No host token found. You
    may not be the host of this sanctuary.", validation over, the
    session and the browser as they were, whatever the server would
    have answered. *)
Theorem initialize_without_token_reports_and_asks_nobody :
  ∀ (decodeURIComponent : string → option string) (throws : StorageOp → bool)
    (server : string → VerifyResponse) (sanctuaryId : string) (h : HookState)
    (b : Browser.t) (fromCookie : option string),
    truthy (getHostToken sanctuaryId b) = false →
    getTokenFromCookie decodeURIComponent sanctuaryId b = Some fromCookie →
    truthy fromCookie = false →
    initializeSession decodeURIComponent throws server sanctuaryId h b
    = Some (mkHookState (hostSession h) false
              (Some "No host token found. You may not be the host of this sanctuary."),
            b).
Proof.
  intros decode throws server sanctuaryId h b fromCookie Hget Hcookie Hfalsy.
  unfold initializeSession. rewrite Hget. cbn [negb]. rewrite Hcookie, Hfalsy.
  reflexivity.
Qed.

Lemma initialize_without_token_reports_and_asks_nobody_witness :
  initializeSession Some (λ _, false) (λ _, Refused None) "s1"
    (mkHookState None false None)
    (Browser.mk (Some "") ∅ ∅ "theme=dark; sanctuary-host-s10=T-other" [])
  = Some (mkHookState None false
            (Some "No host token found. You may not be the host of this sanctuary."),
          Browser.mk (Some "") ∅ ∅ "theme=dark; sanctuary-host-s10=T-other" []).
Proof.
  apply (initialize_without_token_reports_and_asks_nobody Some (λ _, false)
           (λ _, Refused None) "s1" (mkHookState None false None)
           (Browser.mk (Some "") ∅ ∅ "theme=dark; sanctuary-host-s10=T-other" [])
           None);
    reflexivity.
Defined.

(** X20. A token that fails verification is forgotten. When the token
    found in the URL or the storages is refused by the server, or the
    request throws, [initializeSession] removes the entries of this
    sanctuary from [localStorage] and [sessionStorage] and assigns an
    expired cookie, keeps the entries of every other sanctuary, and ends
    with an error text and validation over; the session held before is
    not cleared. *)
Theorem failed_verification_forgets_the_token :
  ∀ (decodeURIComponent : string → option string) (throws : StorageOp → bool)
    (server : string → VerifyResponse) (sanctuaryId token : string) (h : HookState)
    (b : Browser.t),
    getHostToken sanctuaryId b = Some token →
    token ≠ "" →
    (∀ data, server token ≠ Verified data) →
    ∃ h' b',
      initializeSession decodeURIComponent throws server sanctuaryId h b = Some (h', b')
      ∧ Browser.localStorage b' !! host_key sanctuaryId = None
      ∧ Browser.sessionStorage b' !! host_key sanctuaryId = None
      ∧ (∀ other, other ≠ sanctuaryId →
           Browser.localStorage b' !! host_key other
           = Browser.localStorage b !! host_key other
           ∧ Browser.sessionStorage b' !! host_key other
             = Browser.sessionStorage b !! host_key other)
      ∧ Browser.cookie_assignments b'
        = Browser.cookie_assignments b ++
            [host_key sanctuaryId +:+ "=; expires=Thu, 01 Jan 1970 00:00:00 UTC; path=/;"]
      ∧ is_Some (error h')
      ∧ isValidating h' = false
      ∧ hostSession h' = hostSession h.
Proof.
  intros decode throws server sanctuaryId token h b Hget Hne Hbad.
  unfold initializeSession. rewrite Hget, (truthy_Some_true token Hne).
  cbn [negb]. rewrite (truthy_Some_true token Hne). cbn [negb].
  change (default "" (Some token)) with token. unfold verifyHostToken.
  assert (∀ other, other ≠ sanctuaryId → host_key sanctuaryId ≠ host_key other) as Hkey.
  { intros other Hother Heq. apply Hother. symmetry. apply host_key_inj, Heq. }
  destruct (server token) as [data | e | m] eqn:Hserver.
  - destruct (Hbad data). reflexivity.
  - eexists _, _. split; [reflexivity|].
    cbn [missing clearHostToken Browser.localStorage Browser.sessionStorage
           Browser.cookie_assignments error isValidating hostSession].
    rewrite !lookup_delete_eq. repeat split; eauto.
    + rewrite lookup_delete_ne by (apply Hkey; assumption). reflexivity.
    + rewrite lookup_delete_ne by (apply Hkey; assumption). reflexivity.
  - eexists _, _. split; [reflexivity|].
    cbn [missing clearHostToken Browser.localStorage Browser.sessionStorage
           Browser.cookie_assignments error isValidating hostSession].
    rewrite !lookup_delete_eq. repeat split; eauto.
    + rewrite lookup_delete_ne by (apply Hkey; assumption). reflexivity.
    + rewrite lookup_delete_ne by (apply Hkey; assumption). reflexivity.
Qed.

Lemma failed_verification_forgets_the_token_witness :
  ∃ h' b',
    initializeSession Some (λ _, false) (λ _, Refused None) "s1"
      (mkHookState None false None)
      (Browser.mk None {[host_key "s1" := "T-old"; host_key "s2" := "T-two"]} ∅ "" [])
    = Some (h', b')
    ∧ Browser.localStorage b' !! host_key "s1" = None
    ∧ Browser.localStorage b' !! host_key "s2" = Some "T-two"
    ∧ error h' = Some "Invalid host token".
Proof.
  destruct (failed_verification_forgets_the_token Some (λ _, false) (λ _, Refused None)
              "s1" "T-old" (mkHookState None false None)
              (Browser.mk None {[host_key "s1" := "T-old"; host_key "s2" := "T-two"]}
                 ∅ "" []))
    as (h' & b' & Hrun & Hgone & _ & Hother & _).
  - vm_compute. reflexivity.
  - discriminate.
  - intros data. discriminate.
  - exists h', b'. split; [exact Hrun|]. split; [exact Hgone|].
    split.
    + rewrite (proj1 (Hother "s2" ltac:(discriminate))). vm_compute. reflexivity.
    + assert (Some (h', b')
              = Some (mkHookState None false (Some "Invalid host token"),
                      clearHostToken "s1"
                        (Browser.mk None
                           {[host_key "s1" := "T-old"; host_key "s2" := "T-two"]}
                           ∅ "" []))) as Heq.
      { rewrite <- Hrun. vm_compute. reflexivity. }
      injection Heq as -> _. reflexivity.
Defined.

(** X21. A verified token is kept. When the token found in the URL or
    the storages is verified by the server, [initializeSession] ends
    with the server's session, no error and validation over, and stores
    the token that was sent: if the write to [localStorage] does not
    throw and the URL carries no token, a later [getHostToken] returns
    it. *)
Theorem verified_token_is_kept :
  ∀ (decodeURIComponent : string → option string) (throws : StorageOp → bool)
    (server : string → VerifyResponse) (sanctuaryId token : string) (h : HookState)
    (b : Browser.t) (data : HostView.t),
    getHostToken sanctuaryId b = Some token →
    token ≠ "" →
    server token = Verified data →
    ∃ b',
      initializeSession decodeURIComponent throws server sanctuaryId h b
      = Some (mkHookState (Some data) false None, b')
      ∧ b' = storeHostToken throws sanctuaryId token b
      ∧ (throws LocalSetItem = false → truthy (Browser.url_hostToken b) = false →
         getHostToken sanctuaryId b' = Some token).
Proof.
  intros decode throws server sanctuaryId token h b data Hget Hne Hserver.
  unfold initializeSession. rewrite Hget, (truthy_Some_true token Hne).
  cbn [negb]. rewrite (truthy_Some_true token Hne). cbn [negb].
  change (default "" (Some token)) with token. unfold verifyHostToken. rewrite Hserver.
  exists (storeHostToken throws sanctuaryId token b).
  split; [reflexivity|]. split; [reflexivity|].
  intros Hlocal Hno. unfold getHostToken.
  assert (Browser.url_hostToken (storeHostToken throws sanctuaryId token b)
          = Browser.url_hostToken b) as ->.
  { unfold storeHostToken. rewrite Hlocal.
    destruct (throws SessionSetItem), (throws CookieAssign); reflexivity. }
  assert (Browser.localStorage (storeHostToken throws sanctuaryId token b)
            !! host_key sanctuaryId = Some token) as ->.
  { unfold storeHostToken. rewrite Hlocal.
    destruct (throws SessionSetItem), (throws CookieAssign);
      cbn [Browser.localStorage]; apply lookup_insert_eq. }
  unfold or_else at 2. rewrite Hno.
  unfold or_else. rewrite (truthy_Some_true token Hne). reflexivity.
Qed.

Lemma verified_token_is_kept_witness :
  ∃ b',
    initializeSession Some (λ _, false)
      (λ t, Verified (HostView.mk "s1" t "topic" None None 2000 0 5)) "s1"
      (mkHookState None false None)
      (Browser.mk None ∅ {[host_key "s1" := "T-live"]} "" [])
    = Some (mkHookState (Some (HostView.mk "s1" "T-live" "topic" None None 2000 0 5))
              false None, b')
    ∧ b' = storeHostToken (λ _, false) "s1" "T-live"
             (Browser.mk None ∅ {[host_key "s1" := "T-live"]} "" [])
    ∧ ((λ _ : StorageOp, false) LocalSetItem = false →
       truthy (Browser.url_hostToken
                 (Browser.mk None ∅ {[host_key "s1" := "T-live"]} "" [])) = false →
       getHostToken "s1" b' = Some "T-live").
Proof.
  apply (verified_token_is_kept Some (λ _, false)
           (λ t, Verified (HostView.mk "s1" t "topic" None None 2000 0 5)) "s1" "T-live"
           (mkHookState None false None)
           (Browser.mk None ∅ {[host_key "s1" := "T-live"]} "" [])).
  - vm_compute. reflexivity.
  - discriminate.
  - reflexivity.
Defined.

(** * Properties of the admin routes *)

Section AdminProperties.
Variable toLowerCase : string → string.
Variable bcrypt_compare : string → string → bool.
Variable jwt_sign : Admin.LoginPayload → string.
Variable throws : Admin.Op → bool.
Variable now : Z.

(** A login is granted only through the last branch of the route. *)
Lemma login_granted_inv email password accounts :
  Admin.status (Admin.login toLowerCase bcrypt_compare jwt_sign throws now
                  email password accounts).1 = 200%nat →
  ∃ e p i a,
    email = Some e ∧ e ≠ "" ∧ password = Some p ∧ p ≠ ""
    ∧ list_find (Admin.admin_query (toLowerCase e)) accounts = Some (i, a)
    ∧ bcrypt_compare p (Admin.password a) = true
    ∧ Admin.login toLowerCase bcrypt_compare jwt_sign throws now email password accounts
      = (Admin.mkResponse 200
           (Admin.LoggedIn
              (jwt_sign (Admin.mkLoginPayload (Admin.id a) (Admin.email a)
                           (Admin.role a) (Admin.alias a)))
              (Admin.id a) (Admin.email a) (Admin.alias a) (Admin.role a)
              (Admin.avatarIndex a)),
         <[i := Admin.with_lastLoginAt now a]> accounts).
Proof.
  unfold Admin.login.
  destruct (truthy email) eqn:He; [|discriminate].
  destruct (truthy password) eqn:Hp; [|discriminate].
  apply truthy_true_inv in He as (e & -> & Hene).
  apply truthy_true_inv in Hp as (p & -> & Hpne).
  cbn [negb orb from_option id].
  destruct (throws Admin.FindUser); [discriminate|].
  destruct (list_find _ accounts) as [[i a]|] eqn:Hfind; [|discriminate].
  destruct (throws Admin.ComparePassword); [discriminate|].
  destruct (bcrypt_compare p (Admin.password a)) eqn:Hcmp; [|discriminate].
  cbn [negb].
  destruct (throws Admin.SaveUser); [discriminate|].
  destruct (throws Admin.SignToken); [discriminate|].
  intros _. exists e, p, i, a. repeat split; assumption.
Qed.
End AdminProperties.

(** X22. [/login] answers an unknown email and a wrong password alike.
    With a store that answers, when every active admin account under
    the lower-cased email fails the password comparison (there may be
    none: the email is unknown, or belongs to a user who is not an
    active admin), the response is 401 "Invalid credentials" in both
    cases, and no account is touched. *)
Theorem login_refusals_are_indistinguishable :
  ∀ (toLowerCase : string → string) (bcrypt_compare : string → string → bool)
    (jwt_sign : Admin.LoginPayload → string) (throws : Admin.Op → bool) (now : Z)
    (email password : string) (accounts : list Admin.Account),
    (∀ op, throws op = false) →
    email ≠ "" →
    password ≠ "" →
    (∀ a, a ∈ accounts → Admin.admin_query (toLowerCase email) a →
          bcrypt_compare password (Admin.password a) = false) →
    Admin.login toLowerCase bcrypt_compare jwt_sign throws now
      (Some email) (Some password) accounts
    = (Admin.mkResponse 401 (Admin.Failure "Invalid credentials"), accounts).
Proof.
  intros toLowerCase bcrypt_compare jwt_sign throws now email password accounts
    Hthrows He Hp Hwrong.
  unfold Admin.login.
  rewrite (truthy_Some_true email He), (truthy_Some_true password Hp), !Hthrows.
  cbn [negb orb from_option id].
  destruct (list_find _ accounts) as [[i a]|] eqn:Hfind; [|reflexivity].
  apply list_find_Some in Hfind as (Hi & Hq & _).
  rewrite (Hwrong a (list_elem_of_lookup_2 _ _ _ Hi) Hq). reflexivity.
Qed.

Lemma login_refusals_are_indistinguishable_witness :
  Admin.login (λ s, s) demo_compare demo_sign (λ _, false) 1000
    (Some "nobody@veilo.test") (Some "secret") [root_account; plain_account]
  = (Admin.mkResponse 401 (Admin.Failure "Invalid credentials"),
     [root_account; plain_account])
  ∧ Admin.login (λ s, s) demo_compare demo_sign (λ _, false) 1000
      (Some "root@veilo.test") (Some "guess") [root_account; plain_account]
    = (Admin.mkResponse 401 (Admin.Failure "Invalid credentials"),
       [root_account; plain_account])
  ∧ Admin.login (λ s, s) demo_compare demo_sign (λ _, false) 1000
      (Some "bob@veilo.test") (Some "hunter2") [root_account; plain_account]
    = (Admin.mkResponse 401 (Admin.Failure "Invalid credentials"),
       [root_account; plain_account]).
Proof.
  assert (∀ email password,
            email ≠ "" → password ≠ "" →
            (∀ a, a ∈ [root_account; plain_account] →
                  Admin.admin_query email a →
                  demo_compare password (Admin.password a) = false) →
            Admin.login (λ s, s) demo_compare demo_sign (λ _, false) 1000
              (Some email) (Some password) [root_account; plain_account]
            = (Admin.mkResponse 401 (Admin.Failure "Invalid credentials"),
               [root_account; plain_account])) as Hrefused.
  { intros email password He Hp Hwrong.
    apply (login_refusals_are_indistinguishable (λ s, s) demo_compare demo_sign
             (λ _, false) 1000 email password [root_account; plain_account]);
      [reflexivity | assumption | assumption | exact Hwrong]. }
  split; [|split]; apply Hrefused; try discriminate;
    intros a Ha (Hemail & Hrole & _);
    apply elem_of_cons in Ha as [-> | Ha];
    try (apply list_elem_of_singleton in Ha as ->);
    try discriminate; reflexivity.
Defined.

(** X23. [/login] never grants without a matching account. Whatever
    throws, a 200 response means that email and password were given, that
    the store holds an active admin account under the lower-cased email
    whose hash the password matched, that the token is the signature of
    that account's id, email, role and alias, and that the only change in
    the store is that account's last login time. *)
Theorem login_grants_only_matching_admin :
  ∀ (toLowerCase : string → string) (bcrypt_compare : string → string → bool)
    (jwt_sign : Admin.LoginPayload → string) (throws : Admin.Op → bool) (now : Z)
    (email password : option string) (accounts : list Admin.Account),
    Admin.status (Admin.login toLowerCase bcrypt_compare jwt_sign throws now
                    email password accounts).1 = 200%nat →
    ∃ e p i a,
      email = Some e ∧ password = Some p
      ∧ accounts !! i = Some a
      ∧ Admin.email a = toLowerCase e
      ∧ Admin.role a = "admin"
      ∧ Admin.isActive a = true
      ∧ bcrypt_compare p (Admin.password a) = true
      ∧ Admin.body (Admin.login toLowerCase bcrypt_compare jwt_sign throws now
                      email password accounts).1
        = Admin.LoggedIn
            (jwt_sign (Admin.mkLoginPayload (Admin.id a) (Admin.email a)
                         (Admin.role a) (Admin.alias a)))
            (Admin.id a) (Admin.email a) (Admin.alias a) (Admin.role a)
            (Admin.avatarIndex a)
      ∧ (Admin.login toLowerCase bcrypt_compare jwt_sign throws now
           email password accounts).2
        = <[i := Admin.with_lastLoginAt now a]> accounts.
Proof.
  intros toLowerCase bcrypt_compare jwt_sign throws now email password accounts Hok.
  destruct (login_granted_inv _ _ _ _ _ _ _ _ Hok)
    as (e & p & i & a & -> & _ & -> & _ & Hfind & Hcmp & Hrun).
  apply list_find_Some in Hfind as (Hi & (Hemail & Hrole & Hact) & _).
  exists e, p, i, a. rewrite Hrun. cbn [fst snd Admin.body].
  repeat split; assumption.
Qed.

Lemma login_grants_only_matching_admin_witness :
  ∃ e p i a,
    Some "root@veilo.test" = Some e ∧ Some "secret" = Some p
    ∧ [root_account; plain_account] !! i = Some a
    ∧ Admin.email a = (λ s : string, s) e
    ∧ Admin.role a = "admin"
    ∧ Admin.isActive a = true
    ∧ demo_compare p (Admin.password a) = true
    ∧ Admin.body (Admin.login (λ s, s) demo_compare demo_sign (λ _, false) 1000
                    (Some "root@veilo.test") (Some "secret")
                    [root_account; plain_account]).1
      = Admin.LoggedIn
          (demo_sign (Admin.mkLoginPayload (Admin.id a) (Admin.email a)
                        (Admin.role a) (Admin.alias a)))
          (Admin.id a) (Admin.email a) (Admin.alias a) (Admin.role a)
          (Admin.avatarIndex a)
    ∧ (Admin.login (λ s, s) demo_compare demo_sign (λ _, false) 1000
         (Some "root@veilo.test") (Some "secret") [root_account; plain_account]).2
      = <[i := Admin.with_lastLoginAt 1000 a]> [root_account; plain_account].
Proof.
  apply (login_grants_only_matching_admin (λ s, s) demo_compare demo_sign (λ _, false)
           1000 (Some "root@veilo.test") (Some "secret") [root_account; plain_account]).
  reflexivity.
Defined.

Lemma as_user_after_login (accounts : list Admin.Account) (i : nat) (a : Admin.Account)
  (now : Z) :
  accounts !! i = Some a →
  Admin.as_user <$> <[i := Admin.with_lastLoginAt now a]> accounts
  = Admin.as_user <$> accounts.
Proof.
  intros Hi. rewrite list_fmap_insert. apply list_insert_id.
  rewrite list_lookup_fmap, Hi. reflexivity.
Qed.

Lemma User_findOne_account (accounts : list Admin.Account) (a : Admin.Account) :
  a ∈ accounts →
  (∀ b, b ∈ accounts → Admin.id b = Admin.id a → b = a) →
  User_findOne (Admin.as_user <$> accounts) (Some (Admin.id a)) = Some (Admin.as_user a).
Proof.
  intros Hin Huniq. unfold User_findOne.
  destruct (list_find_unique (λ u, User.id u = Admin.id a) (Admin.as_user <$> accounts)
              (Admin.as_user a)) as (j & -> & _).
  - apply list_elem_of_fmap_2. exact Hin.
  - reflexivity.
  - intros u Hu Hid. apply list_elem_of_fmap in Hu as (b & -> & Hb).
    rewrite (Huniq b Hb Hid). reflexivity.
  - reflexivity.
Qed.

(** X24. The token of an admin login opens a socket as that admin. Take
    a verifier that reads back the user id of what the signer signed,
    and a user store in which ids identify accounts. If [/login] answers
    200 with a non-empty token, a socket connection that presents this
    token passes the connection-time authentication against the store
    as the login left it, and the connection carries the id, alias and
    avatar index of the account that logged in, not anonymous. *)
Theorem admin_token_opens_socket_as_that_admin :
  ∀ (toLowerCase : string → string) (bcrypt_compare : string → string → bool)
    (jwt_sign : Admin.LoginPayload → string) (throws : Admin.Op → bool) (now : Z)
    (email password : option string) (accounts accounts' : list Admin.Account)
    (jwt_verify : string → option JwtPayload) (faults : Faults) (h : Handshake)
    (token id email' role : string) (alias : option string) (avatarIndex : option Z),
    Admin.login toLowerCase bcrypt_compare jwt_sign throws now email password accounts
    = (Admin.mkResponse 200 (Admin.LoggedIn token id email' alias role avatarIndex),
       accounts') →
    (∀ p, jwt_verify (jwt_sign p)
          = Some (mkJwtPayload (Some (Some (Admin.payload_id p))))) →
    (∀ a b, a ∈ accounts → b ∈ accounts → Admin.id a = Admin.id b → a = b) →
    token ≠ "" →
    faults UserFindOne = None →
    hs_token h = Some token →
    authenticate jwt_verify (Admin.as_user <$> accounts') faults h
    = inr (connected h id alias avatarIndex false).
Proof.
  intros toLowerCase bcrypt_compare jwt_sign throws now email password accounts accounts'
    jwt_verify faults h token id email' role alias avatarIndex
    Hlogin Hverify Huniq Htoken Hfaults Hh.
  destruct (login_granted_inv toLowerCase bcrypt_compare jwt_sign throws now
              email password accounts)
    as (e & p & i & a & _ & _ & _ & _ & Hfind & _ & Hrun).
  { rewrite Hlogin. reflexivity. }
  rewrite Hrun in Hlogin. injection Hlogin as <- <- _ <- _ <- <-.
  apply list_find_Some in Hfind as (Hi & _ & _).
  rewrite (as_user_after_login accounts i a now Hi).
  unfold authenticate.
  rewrite Hh, (truthy_Some_true _ Htoken). cbn [negb from_option id].
  rewrite Hverify. cbn [user Admin.payload_id]. rewrite Hfaults.
  rewrite (User_findOne_account accounts a).
  - reflexivity.
  - eapply list_elem_of_lookup_2; eassumption.
  - intros b Hb Hid. apply Huniq; [exact Hb | eapply list_elem_of_lookup_2; eassumption
                                   | exact Hid].
Qed.

Lemma demo_verify_reads_back (p : Admin.LoginPayload) :
  demo_verify_signed (demo_sign p)
  = Some (mkJwtPayload (Some (Some (Admin.payload_id p)))).
Proof.
  unfold demo_verify_signed, demo_sign. rewrite prefix_app.
  pose proof (substring_after_prefix "jwt:" (Admin.payload_id p)) as H.
  change (String.length "jwt:") with 4%nat in H. rewrite H. reflexivity.
Qed.

Lemma admin_token_opens_socket_as_that_admin_witness :
  authenticate demo_verify_signed
    (Admin.as_user <$>
       [Admin.with_lastLoginAt 1000 root_account; plain_account])
    no_faults (mkHandshake "k5" (Some "jwt:u1") "10.0.0.5" None)
  = inr (connected (mkHandshake "k5" (Some "jwt:u1") "10.0.0.5" None)
           "u1" (Some "alice") (Some 3) false).
Proof.
  apply (admin_token_opens_socket_as_that_admin (λ s, s) demo_compare demo_sign
           (λ _, false) 1000 (Some "root@veilo.test") (Some "secret")
           [root_account; plain_account]
           [Admin.with_lastLoginAt 1000 root_account; plain_account]
           demo_verify_signed no_faults
           (mkHandshake "k5" (Some "jwt:u1") "10.0.0.5" None)
           "jwt:u1" "u1" "root@veilo.test" "admin" (Some "alice") (Some 3)).
  - reflexivity.
  - apply demo_verify_reads_back.
  - intros a b Ha Hb Hid.
    apply elem_of_cons in Ha as [-> | Ha];
      [|apply list_elem_of_singleton in Ha as ->];
      (apply elem_of_cons in Hb as [-> | Hb];
       [|apply list_elem_of_singleton in Hb as ->]);
      first [reflexivity | discriminate].
  - discriminate.
  - reflexivity.
  - reflexivity.
Defined.

(** ** Flagged posts *)

Lemma NoDup_fmap_index {A B} (f : A → B) (l : list A) (i j : nat) (x y : A) :
  NoDup (f <$> l) → l !! i = Some x → l !! j = Some y → f x = f y → i = j.
Proof.
  intros Hnd Hi Hj Hf. apply (NoDup_lookup (f <$> l) i j (f x) Hnd).
  - rewrite list_lookup_fmap, Hi. reflexivity.
  - rewrite list_lookup_fmap, Hj, Hf. reflexivity.
Qed.

Lemma delete_elem_of_other {A B} (f : A → B) (l : list A) (i : nat) (x : A) :
  NoDup (f <$> l) → l !! i = Some x →
  ∀ y, y ∈ delete i l ↔ y ∈ l ∧ f y ≠ f x.
Proof.
  intros Hnd Hi y. rewrite delete_take_drop.
  pose proof Hnd as Hnd'. rewrite <- (take_drop_middle l i x Hi) in Hnd'.
  rewrite fmap_app, fmap_cons in Hnd'.
  apply NoDup_app in Hnd' as (_ & Hdisj & Hnd').
  apply NoDup_cons in Hnd' as (Hnotin & _).
  rewrite <- (take_drop_middle l i x Hi) at 3.
  rewrite !elem_of_app, elem_of_cons. split.
  - intros [Hl | Hr].
    + split; [left; exact Hl|]. intros Heq. apply (Hdisj (f x)); [|left].
      rewrite <- Heq. apply list_elem_of_fmap_2. exact Hl.
    + split; [right; right; exact Hr|]. intros Heq. apply Hnotin.
      rewrite <- Heq. apply list_elem_of_fmap_2. exact Hr.
  - intros [[Hl | [-> | Hr]] Hne]; [left; exact Hl | contradiction | right; exact Hr].
Qed.

Lemma flagged_find (id : string) (posts : list Admin.Post) (p : Admin.Post) :
  NoDup (Admin.post_id <$> posts) → p ∈ posts →
  Admin.post_id p = id → Admin.flagged p = true →
  ∃ i, list_find (Admin.flagged_query id) posts = Some (i, p)
       ∧ list_find (λ q, Admin.post_id q = id) posts = Some (i, p)
       ∧ posts !! i = Some p.
Proof.
  intros Hnd Hin Hid Hfl.
  apply list_elem_of_lookup in Hin as [i Hi].
  assert (∀ j q, posts !! j = Some q → Admin.post_id q = id → j = i ∧ q = p) as Honly.
  { intros j q Hj Hq.
    assert (j = i) as -> by (eapply (NoDup_fmap_index Admin.post_id); eauto; congruence).
    split; [reflexivity | congruence]. }
  exists i. split; [|split; [|exact Hi]].
  - apply list_find_Some. split; [exact Hi|]. split; [split; assumption|].
    intros j q Hj Hlt [Hq _]. destruct (Honly j q Hj Hq) as [-> _]. lia.
  - apply list_find_Some. split; [exact Hi|]. split; [exact Hid|].
    intros j q Hj Hlt Hq. destruct (Honly j q Hj Hq) as [-> _]. lia.
Qed.

(** X25. Approving a flagged post clears the flag once. With post ids
    identifying posts and a store that answers, [approve] on a flagged
    post answers 200, leaves the post in place with its flag off and its
    flag reason cleared, and changes no other post. The post is then no
    longer a flagged post: a second [approve] or [remove] for the same id
    answers 404 "Flagged post not found" and changes nothing. *)
Theorem approving_a_flagged_post_clears_the_flag_once :
  ∀ (throws : Admin.Op → bool) (id : string) (posts : list Admin.Post)
    (p : Admin.Post) (again : string),
    (∀ op, throws op = false) →
    NoDup (Admin.post_id <$> posts) →
    p ∈ posts →
    Admin.post_id p = id →
    Admin.flagged p = true →
    again ∈ ["approve"; "remove"] →
    let r := Admin.resolve_flagged throws (Some "approve") id posts in
    r.1 = Admin.mkResponse 200 Admin.Done
    ∧ length r.2 = length posts
    ∧ Admin.mkPost id false None ∈ r.2
    ∧ (∀ q, Admin.post_id q ≠ id → (q ∈ r.2 ↔ q ∈ posts))
    ∧ (∀ q, q ∈ r.2 → Admin.post_id q = id → q = Admin.mkPost id false None)
    ∧ Admin.resolve_flagged throws (Some again) id r.2
      = (Admin.mkResponse 404 (Admin.Failure "Flagged post not found"), r.2).
Proof.
  intros throws id posts p again Hthrows Hnd Hin Hid Hfl Hagain r.
  destruct (flagged_find id posts p Hnd Hin Hid Hfl) as (i & Hfind & _ & Hi).
  assert (r = (Admin.mkResponse 200 Admin.Done,
               <[i := Admin.mkPost id false None]> posts)) as ->.
  { subst r. unfold Admin.resolve_flagged. rewrite !Hthrows, Hfind, Hid. reflexivity. }
  cbn [fst snd].
  assert (i < length posts)%nat as Hlt by (eapply lookup_lt_Some; eassumption).
  assert (∀ q, q ∈ <[i := Admin.mkPost id false None]> posts →
               Admin.post_id q = id → q = Admin.mkPost id false None) as Honly.
  { intros q Hq Hqid. apply list_elem_of_lookup in Hq as [j Hj].
    apply list_lookup_insert_Some in Hj as [(_ & <- & _) | (Hne & Hj)]; [reflexivity|].
    destruct Hne. eapply (NoDup_fmap_index Admin.post_id); eauto. congruence. }
  split; [reflexivity|]. split; [apply length_insert|].
  split; [apply list_elem_of_insert, Hlt|]. split; [|split; [exact Honly|]].
  - intros q Hq. rewrite !list_elem_of_lookup. split; intros [j Hj].
    + apply list_lookup_insert_Some in Hj as [(_ & <- & _) | (_ & Hj)];
        [destruct Hq; reflexivity | eauto].
    + exists j. rewrite list_lookup_insert_ne; [exact Hj|].
      intros <-. rewrite Hi in Hj. injection Hj as <-. contradiction.
  - unfold Admin.resolve_flagged. rewrite !Hthrows.
    assert (negb (truthy (Some again))
            || negb (bool_decide (default "" (Some again) ∈ ["approve"; "remove"]))
            = false) as ->.
    { apply elem_of_cons in Hagain as [-> | Hagain]; [reflexivity|].
      apply list_elem_of_singleton in Hagain as ->. reflexivity. }
    rewrite (list_find_none (Admin.flagged_query id)); [reflexivity|].
    intros q Hq [Hqid Hqfl]. rewrite (Honly q Hq Hqid) in Hqfl. discriminate.
Qed.

Lemma approving_a_flagged_post_clears_the_flag_once_witness :
  let r := Admin.resolve_flagged (λ _, false) (Some "approve") "p2" demo_posts in
  r.1 = Admin.mkResponse 200 Admin.Done
  ∧ length r.2 = length demo_posts
  ∧ Admin.mkPost "p2" false None ∈ r.2
  ∧ (∀ q, Admin.post_id q ≠ "p2" → (q ∈ r.2 ↔ q ∈ demo_posts))
  ∧ (∀ q, q ∈ r.2 → Admin.post_id q = "p2" → q = Admin.mkPost "p2" false None)
  ∧ Admin.resolve_flagged (λ _, false) (Some "remove") "p2" r.2
    = (Admin.mkResponse 404 (Admin.Failure "Flagged post not found"), r.2).
Proof.
  apply (approving_a_flagged_post_clears_the_flag_once (λ _, false) "p2" demo_posts
           (Admin.mkPost "p2" true (Some "spam")) "remove").
  - reflexivity.
  - apply (bool_decide_unpack _). vm_compute. reflexivity.
  - right. left.
  - reflexivity.
  - reflexivity.
  - right. left.
Defined.

(** X26. Removing a flagged post deletes that post and no other. With
    post ids identifying posts and a store that answers, [remove] on a
    flagged post answers 200; afterwards the store holds exactly the
    posts with another id, one post fewer than before. *)
Theorem removing_a_flagged_post_deletes_only_it :
  ∀ (throws : Admin.Op → bool) (id : string) (posts : list Admin.Post) (p : Admin.Post),
    (∀ op, throws op = false) →
    NoDup (Admin.post_id <$> posts) →
    p ∈ posts →
    Admin.post_id p = id →
    Admin.flagged p = true →
    let r := Admin.resolve_flagged throws (Some "remove") id posts in
    r.1 = Admin.mkResponse 200 Admin.Done
    ∧ S (length r.2) = length posts
    ∧ (∀ q, q ∈ r.2 ↔ q ∈ posts ∧ Admin.post_id q ≠ id).
Proof.
  intros throws id posts p Hthrows Hnd Hin Hid Hfl r.
  destruct (flagged_find id posts p Hnd Hin Hid Hfl) as (i & Hfind & Hbyid & Hi).
  assert (r = (Admin.mkResponse 200 Admin.Done, delete i posts)) as ->.
  { subst r. unfold Admin.resolve_flagged, Admin.Post_deleteOne.
    rewrite !Hthrows, Hfind, Hbyid. reflexivity. }
  cbn [fst snd]. split; [reflexivity|]. split.
  - rewrite length_delete by eauto.
    assert (i < length posts)%nat by (eapply lookup_lt_Some; eassumption). lia.
  - intros q. rewrite (delete_elem_of_other Admin.post_id posts i p Hnd Hi q), Hid.
    reflexivity.
Qed.

Lemma removing_a_flagged_post_deletes_only_it_witness :
  let r := Admin.resolve_flagged (λ _, false) (Some "remove") "p3" demo_posts in
  r.1 = Admin.mkResponse 200 Admin.Done
  ∧ S (length r.2) = length demo_posts
  ∧ (∀ q, q ∈ r.2 ↔ q ∈ demo_posts ∧ Admin.post_id q ≠ "p3").
Proof.
  apply (removing_a_flagged_post_deletes_only_it (λ _, false) "p3" demo_posts
           (Admin.mkPost "p3" true (Some "abuse"))).
  - reflexivity.
  - apply (bool_decide_unpack _). vm_compute. reflexivity.
  - right. right. left.
  - reflexivity.
  - reflexivity.
Defined.

(** X27. The flagged-post route changes posts only when it answers 200.
    Whatever throws, an action other than "approve" and "remove" (a
    missing one included) is answered 400 before the store is read, and
    every response other than 200 leaves the posts exactly as they were;
    a 200 is only given for "approve" or "remove" on an id under which a
    flagged post was stored. *)
Theorem flagged_route_changes_posts_only_on_200 :
  ∀ (throws : Admin.Op → bool) (action : option string) (id : string)
    (posts : list Admin.Post),
    let r := Admin.resolve_flagged throws action id posts in
    (default "" action ∉ ["approve"; "remove"] →
     r = (Admin.mkResponse 400
            (Admin.Failure "Valid action is required (approve or remove)"), posts))
    ∧ (Admin.status r.1 ≠ 200%nat → r.2 = posts)
    ∧ (Admin.status r.1 = 200%nat →
       default "" action ∈ ["approve"; "remove"]
       ∧ ∃ p, p ∈ posts ∧ Admin.post_id p = id ∧ Admin.flagged p = true).
Proof.
  intros throws action id posts r. subst r. unfold Admin.resolve_flagged.
  assert (∀ (e : string) (status : nat),
            status ≠ 200%nat →
            (default "" action ∈ ["approve"; "remove"] ∨ status = 400%nat
                                                            ∧ e = "Valid action is required (approve or remove)") →
            (default "" action ∉ ["approve"; "remove"] →
             (Admin.mkResponse status (Admin.Failure e), posts)
             = (Admin.mkResponse 400
                  (Admin.Failure "Valid action is required (approve or remove)"), posts))
            ∧ (Admin.status (Admin.mkResponse status (Admin.Failure e), posts).1 ≠ 200%nat →
               (Admin.mkResponse status (Admin.Failure e), posts).2 = posts)
            ∧ (Admin.status (Admin.mkResponse status (Admin.Failure e), posts).1 = 200%nat →
               default "" action ∈ ["approve"; "remove"]
               ∧ ∃ p, p ∈ posts ∧ Admin.post_id p = id ∧ Admin.flagged p = true))
    as Hfail.
  { intros e status Hstatus Hwhy. split; [|split].
    - intros Hnin. destruct Hwhy as [Hin | [-> ->]]; [contradiction | reflexivity].
    - intros _. reflexivity.
    - cbn [fst Admin.status]. intros Heq. contradiction. }
  destruct (truthy action) eqn:Ht; cbn [negb orb].
  2:{ apply Hfail; [discriminate|]. right. split; reflexivity. }
  destruct (bool_decide_reflect (default "" action ∈ ["approve"; "remove"]))
    as [Hin | Hnin]; cbn [negb].
  2:{ apply Hfail; [discriminate|]. right. split; reflexivity. }
  destruct (throws Admin.FindPost); [apply Hfail; [discriminate | left; exact Hin]|].
  destruct (list_find (Admin.flagged_query id) posts) as [[i p]|] eqn:Hfind;
    [|apply Hfail; [discriminate | left; exact Hin]].
  apply list_find_Some in Hfind as (Hi & (Hid & Hfl) & _).
  assert (∃ p, p ∈ posts ∧ Admin.post_id p = id ∧ Admin.flagged p = true) as Hex.
  { exists p. split; [eapply list_elem_of_lookup_2; eassumption | split; assumption]. }
  destruct (String.eqb (default "" action) "approve").
  - destruct (throws Admin.SavePost); [apply Hfail; [discriminate | left; exact Hin]|].
    cbn [fst snd Admin.status].
    split; [intros Hnin; contradiction|].
    split; [intros Hne; contradiction | intros _; split; assumption].
  - destruct (throws Admin.DeletePost); [apply Hfail; [discriminate | left; exact Hin]|].
    cbn [fst snd Admin.status].
    split; [intros Hnin; contradiction|].
    split; [intros Hne; contradiction | intros _; split; assumption].
Qed.

(** * Properties of the bulk moderation actions *)

Lemma includes_empty (s : string) : includes s "" = true.
Proof. destruct s; reflexivity. Qed.

Lemma selected_spec toLowerCase participants currentUserId searchTerm p :
  p ∈ selectedParticipants toLowerCase participants currentUserId searchTerm
  ↔ p ∈ participants
    ∧ (includes (toLowerCase (Participant.alias p)) (toLowerCase searchTerm) = true
       ∨ includes (Participant.id p) searchTerm = true)
    ∧ Participant.isHost p = false
    ∧ Participant.id p ≠ currentUserId.
Proof.
  unfold selectedParticipants, filteredParticipants.
  rewrite !list_elem_of_filter, orb_true_iff, andb_true_iff, !negb_true_iff.
  destruct (String.eqb_spec (Participant.id p) currentUserId) as [Heq | Hne].
  - split.
    + intros ((_ & Hfalse) & _). discriminate.
    + intros (_ & _ & _ & Hne). contradiction.
  - tauto.
Qed.

(** X28. "Mute All" mutes the unmuted others of the filtered view and
    nobody else. Every call it makes is a mute of a listed participant
    who matches the search, is not the host, is not the current user and
    is not yet muted; every such participant is muted; no participant is
    kicked; and the number in the toast is the number of calls made.
    With an empty search every participant matches. *)
Theorem mute_all_spares_host_self_and_muted :
  ∀ (toLowerCase : string → string) (participants : list Participant.t)
    (currentUserId searchTerm : string),
    let r := handleBulkAction toLowerCase participants currentUserId searchTerm
               "muteAll" in
    (∀ c, c ∈ r.1 ↔
          ∃ p, c = MuteParticipant (Participant.id p)
               ∧ p ∈ participants
               ∧ (includes (toLowerCase (Participant.alias p)) (toLowerCase searchTerm)
                  = true
                  ∨ includes (Participant.id p) searchTerm = true)
               ∧ Participant.isHost p = false
               ∧ Participant.id p ≠ currentUserId
               ∧ Participant.isMuted p = false)
    ∧ r.2 = Some (mkToast "Bulk Mute Applied"
                    ("Muted " +:+ pretty (length r.1) +:+ " participants"))
    ∧ (searchTerm = "" →
       ∀ p, p ∈ participants → Participant.isHost p = false →
            Participant.id p ≠ currentUserId → Participant.isMuted p = false →
            MuteParticipant (Participant.id p) ∈ r.1).
Proof.
  intros toLowerCase participants currentUserId searchTerm r.
  assert (∀ c, c ∈ r.1 ↔
               ∃ p, c = MuteParticipant (Participant.id p)
                    ∧ p ∈ participants
                    ∧ (includes (toLowerCase (Participant.alias p))
                         (toLowerCase searchTerm) = true
                       ∨ includes (Participant.id p) searchTerm = true)
                    ∧ Participant.isHost p = false
                    ∧ Participant.id p ≠ currentUserId
                    ∧ Participant.isMuted p = false) as Hcalls.
  { intros c. subst r. unfold handleBulkAction.
    change (String.eqb "muteAll" "muteAll") with true. cbn [fst].
    rewrite list_elem_of_fmap. split.
    - intros (p & -> & Hp). apply list_elem_of_filter in Hp as [Hmuted Hp].
      apply selected_spec in Hp as (Hin & Hmatch & Hhost & Hself).
      exists p. repeat split; assumption.
    - intros (p & -> & Hin & Hmatch & Hhost & Hself & Hmuted).
      exists p. split; [reflexivity|]. apply list_elem_of_filter.
      split; [exact Hmuted|]. apply selected_spec. repeat split; assumption. }
  split; [exact Hcalls|]. split.
  - subst r. unfold handleBulkAction.
    change (String.eqb "muteAll" "muteAll") with true. cbn [fst snd].
    rewrite length_fmap. reflexivity.
  - intros -> p Hin Hhost Hself Hmuted. apply Hcalls.
    exists p. split; [reflexivity|]. split; [exact Hin|].
    split; [right; apply includes_empty|]. repeat split; assumption.
Qed.

(** X29. "Remove Inactive" kicks exactly the others of the filtered view
    that are disconnected or have a speaking time of 0, a connected
    participant who has not spoken yet included; it never kicks the host
    or the current user, mutes nobody, and the number in the toast is
    the number of kicks. *)
Theorem kick_inactive_takes_silent_and_disconnected :
  ∀ (toLowerCase : string → string) (participants : list Participant.t)
    (currentUserId searchTerm : string),
    let r := handleBulkAction toLowerCase participants currentUserId searchTerm
               "kickInactive" in
    (∀ c, c ∈ r.1 ↔
          ∃ p, c = KickParticipant (Participant.id p)
               ∧ p ∈ participants
               ∧ (includes (toLowerCase (Participant.alias p)) (toLowerCase searchTerm)
                  = true
                  ∨ includes (Participant.id p) searchTerm = true)
               ∧ Participant.isHost p = false
               ∧ Participant.id p ≠ currentUserId
               ∧ (Participant.connectionStatus p = disconnected_status
                  ∨ Participant.speakingTime p = 0%nat))
    ∧ r.2 = Some (mkToast "Inactive Participants Removed"
                    ("Removed " +:+ pretty (length r.1) +:+ " inactive participants")).
Proof.
  intros toLowerCase participants currentUserId searchTerm r.
  assert (∀ p, is_inactive p = true
               ↔ Participant.connectionStatus p = disconnected_status
                 ∨ Participant.speakingTime p = 0%nat) as Hinactive.
  { intros p. unfold is_inactive.
    destruct (Participant.connectionStatus p); rewrite ?Nat.eqb_eq.
    - split; [intros H; right; exact H | intros [H | H]; [discriminate | exact H]].
    - split; [intros H; right; exact H | intros [H | H]; [discriminate | exact H]].
    - split; [intros _; left; reflexivity | intros _; reflexivity]. }
  split.
  - intros c. subst r. unfold handleBulkAction.
    change (String.eqb "kickInactive" "muteAll") with false.
    change (String.eqb "kickInactive" "kickInactive") with true. cbn [fst].
    rewrite list_elem_of_fmap. split.
    + intros (p & -> & Hp). apply list_elem_of_filter in Hp as [Hin Hp].
      apply selected_spec in Hp as (Hp & Hmatch & Hhost & Hself).
      exists p. repeat split; try assumption. apply Hinactive, Hin.
    + intros (p & -> & Hin & Hmatch & Hhost & Hself & Hwhy).
      exists p. split; [reflexivity|]. apply list_elem_of_filter.
      split; [apply Hinactive, Hwhy|]. apply selected_spec. repeat split; assumption.
  - subst r. unfold handleBulkAction.
    change (String.eqb "kickInactive" "muteAll") with false.
    change (String.eqb "kickInactive" "kickInactive") with true. cbn [fst snd].
    rewrite length_fmap. reflexivity.
Qed.
